(** * Update handler of aos_updatemanager: FSM-driven update coordinator

    Shallow embedding of package [updatehandler] (the FSM based handler:
    [doPriorityOperations], [doOperation], [doReboot], [componentOperation],
    [prepareComponent], the [on...State] callbacks, [onStateChanged] and
    [sendEvent]) together with the properties of the update life cycle
    prepare / update / apply / revert.

    Conventions of the embedding.
    - A Go [error] is an [option string]: [None] is [nil], [Some msg] is an
      error whose [Error()] text is [msg].
    - Code that may dereference a nil pointer returns an [Outcome]; [Panic]
      is the run-time panic of Go, [OutOfFuel] marks a loop that was cut off
      by the fuel of the model.
    - Goroutines of one priority group are run one after the other, in the
      order in which the scheduler launches them.
    - Iteration over a Go map follows [map_to_list]. *)

From Stdlib Require Import NArith List Lia.
From stdpp Require Import base option list strings gmap fin_maps pretty sorting.

Set Default Proof Using "Type".

(** ** Errors and outcomes *)

Definition error := option string.

(** [if a == nil { a = b }] *)
Definition firstError (a b : error) : error :=
  match a with
  | Some _ => a
  | None => b
  end.

Inductive Outcome (A : Type) : Type :=
  | Done (a : A)
  | Panic
  | OutOfFuel.
Arguments Done {A} a.
Arguments Panic {A}.
Arguments OutOfFuel {A}.

Definition outcome_bind {A B : Type} (f : A → Outcome B) (m : Outcome A) : Outcome B :=
  match m with
  | Done a => f a
  | Panic => Panic
  | OutOfFuel => OutOfFuel
  end.

#[global] Instance Outcome_bind : MBind Outcome := @outcome_bind.
#[global] Instance Outcome_ret : MRet Outcome := @Done.

(** ** Priority scheduler *)

Section Scheduler.
Context {St : Type}.

Record priorityOperation := PriorityOperation {
  priority : N;
  operation : St → Outcome (St * error)
}.

(** [sort.Slice(operations, func(i, j int) bool { return
    operations[i].priority > operations[j].priority })]: the model sorts
    by insertion and keeps the order of equal priorities. *)
Fixpoint insertByPriority (x : priorityOperation) (l : list priorityOperation)
    : list priorityOperation :=
  match l with
  | [] => [x]
  | y :: l' =>
      if (priority y <=? priority x)%N then x :: y :: l'
      else y :: insertByPriority x l'
  end.

Definition sortSlice (l : list priorityOperation) : list priorityOperation :=
  foldr insertByPriority [] l.

(** The [for _, item := range operations] loop of [doPriorityOperations];
    [priority], [groupErr] and [err] are the local variables of the Go
    function. *)
Fixpoint priorityLoop (stopOnError : bool) (items : list priorityOperation)
    (prio : N) (groupErr err : error) (s : St) : Outcome (St * error) :=
  match items with
  | [] => Done (s, firstError err groupErr)
  | item :: rest =>
      if bool_decide (priority item ≠ prio) then
        match groupErr with
        | Some _ =>
            if stopOnError then Done (s, groupErr)
            else
              '(s', e) ← operation item s;
              priorityLoop stopOnError rest (priority item)
                (firstError None e) (firstError err groupErr) s'
        | None =>
            '(s', e) ← operation item s;
            priorityLoop stopOnError rest (priority item)
              (firstError groupErr e) err s'
        end
      else
        '(s', e) ← operation item s;
        priorityLoop stopOnError rest prio (firstError groupErr e) err s'
  end.

Definition doPriorityOperations (operations : list priorityOperation)
    (stopOnError : bool) (s : St) : Outcome (St * error) :=
  match operations with
  | [] => Done (s, None)
  | _ :: _ =>
      match sortSlice operations with
      | [] => Done (s, None)
      | first :: rest =>
          priorityLoop stopOnError (first :: rest) (priority first) None None s
      end
  end.

(** *** The scheduler as the specification words it *)

(** Partition of a list into maximal runs of equal priority. *)
Fixpoint groupByPriority (l : list priorityOperation)
    : list (list priorityOperation) :=
  match l with
  | [] => []
  | x :: l' =>
      match groupByPriority l' with
      | (y :: g) :: gs =>
          if bool_decide (priority x = priority y) then (x :: y :: g) :: gs
          else [x] :: (y :: g) :: gs
      | _ => [[x]]
      end
  end.

(** Every operation of the group is run; the group's error is the first
    result that is not ok. *)
Fixpoint runGroup (g : list priorityOperation) (s : St) : Outcome (St * error) :=
  match g with
  | [] => Done (s, None)
  | o :: g' =>
      '(s1, e) ← operation o s;
      '(s2, e') ← runGroup g' s1;
      Done (s2, firstError e e')
  end.

Fixpoint runGroups (stopOnError : bool) (gs : list (list priorityOperation))
    (retained : error) (s : St) : Outcome (St * error) :=
  match gs with
  | [] => Done (s, retained)
  | g :: gs' =>
      '(s1, ge) ← runGroup g s;
      match ge with
      | Some _ =>
          if stopOnError then Done (s1, ge)
          else runGroups stopOnError gs' (firstError retained ge) s1
      | None => runGroups stopOnError gs' retained s1
      end
  end.

Definition schedulerSpec (operations : list priorityOperation)
    (stopOnError : bool) (s : St) : Outcome (St * error) :=
  runGroups stopOnError (groupByPriority (sortSlice operations)) None s.




(** The barrier after a group that ended with error [groupErr], with the
    groups [gs] still to run. *)
Definition settleGroup (stopOnError : bool) (gs : list (list priorityOperation))
    (groupErr err : error) (s : St) : Outcome (St * error) :=
  match groupErr with
  | Some _ =>
      if stopOnError then Done (s, groupErr)
      else runGroups stopOnError gs (firstError err groupErr) s
  | None => runGroups stopOnError gs err s
  end.

End Scheduler.
Arguments priorityOperation St : clear implicits.

(** ** Types of package umclient *)

(** Modelled from the spec: the declarations of package [umclient] are not
    part of the sources; a component status is one of Installed, Installing,
    Installed-Updated and Error. *)
Inductive ComponentStatus :=
  | StatusInstalled
  | StatusInstalling
  | StatusInstalledUpdated
  | StatusError.

#[global] Instance ComponentStatus_eq_dec : EqDecision ComponentStatus.
Proof. solve_decision. Defined.

(** Modelled from the spec: [umclient.ComponentStatusInfo] with the fields
    id, vendorVersion, aosVersion (u64), status and error. *)
Module ComponentStatusInfo.
Record t := mk {
  ID : string;
  VendorVersion : string;
  AosVersion : N;
  Status : ComponentStatus;
  Error : string
}.
End ComponentStatusInfo.

(** Modelled from the spec: [umclient.ComponentUpdateInfo], the update
    request item: id, vendorVersion (may be empty), aosVersion (may be 0),
    url, size, sha256, sha512 and annotations. *)
Module ComponentUpdateInfo.
Record t := mk {
  ID : string;
  VendorVersion : string;
  AosVersion : N;
  URL : string;
  Size : N;
  Sha256 : string;
  Sha512 : string;
  Annotations : string
}.
End ComponentUpdateInfo.

(** Modelled from the spec: [umclient.UMState], the state reported to the
    controller; [StateIdle] is the zero value. *)
Inductive UMState := StateIdle | StatePrepared | StateUpdated | StateFailed.

(** Modelled from the spec: [umclient.Status], the snapshot
    {fsmState, error, components}. *)
Module Status.
Record t := mk {
  State : UMState;
  Error : string;
  Components : list ComponentStatusInfo.t
}.
End Status.

(** ** Constants of the handler *)

Definition eventPrepare : string := "prepare".
Definition eventUpdate : string := "update".
Definition eventApply : string := "apply".
Definition eventRevert : string := "revert".

Definition stateIdle : string := "idle".
Definition statePrepared : string := "prepared".
Definition stateUpdated : string := "updated".
Definition stateFailed : string := "failed".

(** [handlerState]: the part of the handler that is persisted as one blob. *)
Module handlerState.
Record t := mk {
  UpdateState : string;
  Error : string;
  ComponentStatuses : gmap string ComponentStatusInfo.t
}.
End handlerState.

(** ** State storage *)

(** Modelled from the spec: the implementation of interface [StateStorage]
    is not part of the sources.  The store keeps the coordinator state blob
    and, per component id, the Aos version and the vendor version.  A write
    replaces the stored value; a read of a version that was never written
    is an error.  The persistence layer can fail: [stateWritable] and
    [versionsWritable] tell whether writes of the state blob and of the
    version rows succeed. *)
Module StateStorage.
Record t := mk {
  updateState : option handlerState.t;
  aosVersions : gmap string N;
  vendorVersions : gmap string string;
  stateWritable : bool;
  versionsWritable : bool
}.

Definition writeError : string := "storage write failed".
Definition notExistError : string := "entry does not exist".

Definition SetUpdateState (state : handlerState.t) (s : t) : t * error :=
  if stateWritable s then
    (mk (Some state) (aosVersions s) (vendorVersions s)
        (stateWritable s) (versionsWritable s), None)
  else (s, Some writeError).

Definition GetUpdateState (s : t) : option handlerState.t * error :=
  (updateState s, None).

Definition SetAosVersion (id : string) (version : N) (s : t) : t * error :=
  if versionsWritable s then
    (mk (updateState s) (<[id := version]> (aosVersions s)) (vendorVersions s)
        (stateWritable s) (versionsWritable s), None)
  else (s, Some writeError).

Definition GetAosVersion (id : string) (s : t) : N * error :=
  match aosVersions s !! id with
  | Some v => (v, None)
  | None => (0%N, Some notExistError)
  end.

Definition SetVendorVersion (id : string) (version : string) (s : t) : t * error :=
  if versionsWritable s then
    (mk (updateState s) (aosVersions s) (<[id := version]> (vendorVersions s))
        (stateWritable s) (versionsWritable s), None)
  else (s, Some writeError).

Definition GetVendorVersion (id : string) (s : t) : string * error :=
  match vendorVersions s !! id with
  | Some v => (v, None)
  | None => (String.EmptyString, Some notExistError)
  end.
End StateStorage.

(** ** The state machine of package looplab/fsm *)

(** An event description of [fsm.Events]. *)
Record EventDesc := mkEventDesc {
  Name : string;
  Src : list string;
  Dst : string
}.

(** The event of a transition in progress ([fsm.Event]); [Args] are the
    optional arguments passed to [FSM.Event]. *)
Record FsmEvent := mkFsmEvent {
  Event_Event : string;
  Event_Src : string;
  Event_Dst : string;
  Event_Args : list (list ComponentUpdateInfo.t)
}.

(** The errors [FSM.Event] and [FSM.Transition] return. *)
Inductive FsmError :=
  | InTransitionError (event : string)
  | InvalidEventError (event state : string)
  | UnknownEventError (event : string)
  | NoTransitionError
  | NotInTransitionError
  | AsyncError.

Definition FsmError_text (e : FsmError) : string :=
  match e with
  | InTransitionError event =>
      "event " +:+ event +:+ " inappropriate because previous transition did not complete"
  | InvalidEventError event state =>
      "event " +:+ event +:+ " inappropriate in current state " +:+ state
  | UnknownEventError event => "event " +:+ event +:+ " does not exist"
  | NoTransitionError => "no transition"
  | NotInTransitionError => "transition inappropriate because no state change in progress"
  | AsyncError => "async started"
  end.

(** [fsm.FSM]: the current state, the table [eKey{event, src} -> dst] and
    the transition that was set up by [Event] and not yet run. *)
Record FSM := mkFSM {
  current : string;
  transitions : gmap (string * string) string;
  transition : option FsmEvent
}.

(** The table [NewFSM] builds from the event descriptions. *)
Definition addEvent (tbl : gmap (string * string) string) (e : EventDesc)
    : gmap (string * string) string :=
  foldl (λ t src, <[(Name e, src) := Dst e]> t) tbl (Src e).

Definition NewFSM (initial : string) (events : list EventDesc) : FSM :=
  mkFSM initial (foldl addEvent ∅ events) None.

Definition FSM_Current (f : FSM) : string := current f.

Definition FSM_SetState (state : string) (f : FSM) : FSM :=
  mkFSM state (transitions f) (transition f).

(** [Can]: the event has an entry for the current state and no transition
    is in progress. *)
Definition FSM_Can (f : FSM) (event : string) : bool :=
  bool_decide (is_Some (transitions f !! (event, current f)))
  && bool_decide (transition f = None).

Definition FSM_Cannot (f : FSM) (event : string) : bool := negb (FSM_Can f event).

(** The event table of the handler ([New]). *)
Definition handlerEvents : list EventDesc :=
  [ mkEventDesc eventPrepare [stateIdle] statePrepared;
    mkEventDesc eventUpdate [statePrepared] stateUpdated;
    mkEventDesc eventApply [stateUpdated] stateIdle;
    mkEventDesc eventRevert [statePrepared; stateUpdated; stateFailed] stateIdle ].

(** ** Configuration *)

(** Modelled from the spec: package [config] is not part of the sources; a
    module entry is {id, plugin, updatePriority, rebootPriority, disabled,
    params} and the configuration holds downloadDir and updateModules. *)
Record ModuleConfig := mkModuleConfig {
  cfg_ID : string;
  cfg_Plugin : string;
  cfg_UpdatePriority : N;
  cfg_RebootPriority : N;
  cfg_Disabled : bool;
  cfg_Params : string
}.

Record Config := mkConfig {
  DownloadDir : string;
  UpdateModules : list ModuleConfig
}.

(** ** Log of the calls the handler makes *)

(** Every call of a module method, of the image fetcher and of the storage
    writes of versions is recorded together with what it returned; the log
    is a ghost field of the handler. *)
Inductive Call :=
  | CallInit (id : string) (err : error)
  | CallGetVendorVersion (id : string) (version : string) (err : error)
  | CallPrepare (id imagePath vendorVersion annotations : string) (err : error)
  | CallUpdate (id : string) (rebootRequired : bool) (err : error)
  | CallApply (id : string) (rebootRequired : bool) (err : error)
  | CallRevert (id : string) (rebootRequired : bool) (err : error)
  | CallReboot (id : string) (err : error)
  | CallDownloadImage (downloadDir url : string)
  | CallSetVendorVersion (id version : string) (err : error)
  | CallSetAosVersion (id : string) (version : N) (previous : option N) (err : error).

(** Loops with a body that can panic. *)
Fixpoint forEach {A S : Type} (f : S → A → Outcome S) (l : list A) (s : S) : Outcome S :=
  match l with
  | [] => Done s
  | x :: l' => s' ← f s x; forEach f l' s'
  end.

Section Handler.
Context {W : Type}.

(** Interface [UpdateModule]; a method acts on the world [W] outside of the
    handler (the module's own state, the disks, the boot loader). *)
Record UpdateModule := mkUpdateModule {
  GetID : string;
  GetVendorVersion : W → W * (string * error);
  Init : W → W * error;
  Prepare : string → string → string → W → W * error;
  Update : W → W * (bool * error);
  Apply : W → W * (bool * error);
  Revert : W → W * (bool * error);
  Reboot : W → W * error;
  Close : W → W * error
}.

(** What the handler uses of net/url, grab, aos_common/image and os. *)
Record Platform := mkPlatform {
  (** [url.Parse]: scheme and path of the URL, or an error *)
  url_Parse : string → (string * string) * error;
  (** [grab.NewRequest] and [Client.Do]: the name of the downloaded file *)
  grab_Do : string → string → W → W * (string * error);
  (** [image.CheckFileInfo path {Sha256, Sha512, Size}] *)
  image_CheckFileInfo : string → string → string → N → W → W * error;
  os_RemoveAll : string → W → W * error;
  os_MkdirAll : string → W → W * error
}.

Record componentData := mkComponentData {
  module : UpdateModule;
  updatePriority : N;
  rebootPriority : N
}.

Record Handler := mkHandler {
  storage : StateStorage.t;
  components : gmap string componentData;
  componentStatuses : gmap string ComponentStatusInfo.t;
  state : handlerState.t;
  fsm : FSM;
  downloadDir : string;
  (** the statuses sent to the status channel, oldest first *)
  statusChannel : list Status.t;
  world : W;
  calls : list Call
}.

Definition setStorage (x : StateStorage.t) (h : Handler) : Handler :=
  mkHandler x (components h) (componentStatuses h) (state h) (fsm h)
    (downloadDir h) (statusChannel h) (world h) (calls h).
Definition setComponentStatuses (x : gmap string ComponentStatusInfo.t) (h : Handler) : Handler :=
  mkHandler (storage h) (components h) x (state h) (fsm h)
    (downloadDir h) (statusChannel h) (world h) (calls h).
Definition setState (x : handlerState.t) (h : Handler) : Handler :=
  mkHandler (storage h) (components h) (componentStatuses h) x (fsm h)
    (downloadDir h) (statusChannel h) (world h) (calls h).
Definition setFsm (x : FSM) (h : Handler) : Handler :=
  mkHandler (storage h) (components h) (componentStatuses h) (state h) x
    (downloadDir h) (statusChannel h) (world h) (calls h).
Definition setStatusChannel (x : list Status.t) (h : Handler) : Handler :=
  mkHandler (storage h) (components h) (componentStatuses h) (state h) (fsm h)
    (downloadDir h) x (world h) (calls h).
Definition setWorld (x : W) (h : Handler) : Handler :=
  mkHandler (storage h) (components h) (componentStatuses h) (state h) (fsm h)
    (downloadDir h) (statusChannel h) x (calls h).
Definition logCall (c : Call) (h : Handler) : Handler :=
  mkHandler (storage h) (components h) (componentStatuses h) (state h) (fsm h)
    (downloadDir h) (statusChannel h) (world h) (calls h ++ [c]).

(** Assignments to the fields of [handler.state]. *)
Definition setUpdateState (x : string) (h : Handler) : Handler :=
  setState (handlerState.mk x (handlerState.Error (state h))
              (handlerState.ComponentStatuses (state h))) h.
Definition setError (x : string) (h : Handler) : Handler :=
  setState (handlerState.mk (handlerState.UpdateState (state h)) x
              (handlerState.ComponentStatuses (state h))) h.
Definition setStateComponentStatuses (x : gmap string ComponentStatusInfo.t)
    (h : Handler) : Handler :=
  setState (handlerState.mk (handlerState.UpdateState (state h))
              (handlerState.Error (state h)) x) h.

(** *** Calls of module methods and of the storage, with their log entry *)

Definition callInit (m : UpdateModule) (h : Handler) : Handler * error :=
  let '(w, e) := Init m (world h) in
  (logCall (CallInit (GetID m) e) (setWorld w h), e).

Definition callGetVendorVersion (m : UpdateModule) (h : Handler)
    : Handler * (string * error) :=
  let '(w, (v, e)) := GetVendorVersion m (world h) in
  (logCall (CallGetVendorVersion (GetID m) v e) (setWorld w h), (v, e)).

Definition callPrepare (m : UpdateModule) (imagePath vendorVersion annotations : string)
    (h : Handler) : Handler * error :=
  let '(w, e) := Prepare m imagePath vendorVersion annotations (world h) in
  (logCall (CallPrepare (GetID m) imagePath vendorVersion annotations e) (setWorld w h), e).

Definition callUpdate (m : UpdateModule) (h : Handler) : Handler * (bool * error) :=
  let '(w, (r, e)) := Update m (world h) in
  (logCall (CallUpdate (GetID m) r e) (setWorld w h), (r, e)).

Definition callApply (m : UpdateModule) (h : Handler) : Handler * (bool * error) :=
  let '(w, (r, e)) := Apply m (world h) in
  (logCall (CallApply (GetID m) r e) (setWorld w h), (r, e)).

Definition callRevert (m : UpdateModule) (h : Handler) : Handler * (bool * error) :=
  let '(w, (r, e)) := Revert m (world h) in
  (logCall (CallRevert (GetID m) r e) (setWorld w h), (r, e)).

Definition callReboot (m : UpdateModule) (h : Handler) : Handler * error :=
  let '(w, e) := Reboot m (world h) in
  (logCall (CallReboot (GetID m) e) (setWorld w h), e).

Definition storageSetVendorVersion (id version : string) (h : Handler) : Handler * error :=
  let '(s, e) := StateStorage.SetVendorVersion id version (storage h) in
  (logCall (CallSetVendorVersion id version e) (setStorage s h), e).

Definition storageSetAosVersion (id : string) (version : N) (h : Handler) : Handler * error :=
  let '(s, e) := StateStorage.SetAosVersion id version (storage h) in
  (logCall (CallSetAosVersion id version (StateStorage.aosVersions (storage h) !! id) e)
     (setStorage s h), e).

(** *** getState, saveState *)

(** The blob is the JSON text of [handler.state]; the model stores the
    state itself.  An empty blob leaves [handler.state] as it is. *)
Definition getState (h : Handler) : Handler * error :=
  let '(jsonState, err) := StateStorage.GetUpdateState (storage h) in
  match err with
  | Some _ => (h, err)
  | None =>
      match jsonState with
      | None => (h, None)
      | Some st => (setState st h, None)
      end
  end.

Definition saveState (h : Handler) : Handler * error :=
  let '(s, err) := StateStorage.SetUpdateState (state h) (storage h) in
  match err with
  | Some _ => (setStorage s h, err)
  | None => (setStorage s h, None)
  end.

(** *** getVersions *)

Definition setStatusVendorVersion (v : string) (st : ComponentStatusInfo.t)
    : ComponentStatusInfo.t :=
  ComponentStatusInfo.mk (ComponentStatusInfo.ID st) v (ComponentStatusInfo.AosVersion st)
    (ComponentStatusInfo.Status st) (ComponentStatusInfo.Error st).

Definition setStatusAosVersion (v : N) (st : ComponentStatusInfo.t)
    : ComponentStatusInfo.t :=
  ComponentStatusInfo.mk (ComponentStatusInfo.ID st) (ComponentStatusInfo.VendorVersion st) v
    (ComponentStatusInfo.Status st) (ComponentStatusInfo.Error st).

(** The body of the loop over [handler.components]. *)
Definition getVersionsStep (h : Handler) (entry : string * componentData)
    : Outcome Handler :=
  let '(id, component) := entry in
  let '(h1, (vendorVersion, _)) :=
    if bool_decide (handlerState.UpdateState (state h) = stateIdle)
    then callGetVendorVersion (module component) h
    else (h, StateStorage.GetVendorVersion id (storage h)) in
  match componentStatuses h1 !! id with
  | None => Panic
  | Some st =>
      let st1 := setStatusVendorVersion vendorVersion st in
      let '(aosVersion, err) := StateStorage.GetAosVersion id (storage h1) in
      match err with
      | None =>
          Done (setComponentStatuses
                  (<[id := setStatusAosVersion aosVersion st1]> (componentStatuses h1)) h1)
      | Some _ =>
          Done (setComponentStatuses (<[id := st1]> (componentStatuses h1)) h1)
      end
  end.

Definition getVersions (h : Handler) : Outcome Handler :=
  forEach getVersionsStep (map_to_list (components h)) h.

(** *** sendStatus *)

Definition toUMState (state : string) : UMState :=
  if bool_decide (state = stateIdle) then StateIdle
  else if bool_decide (state = statePrepared) then StatePrepared
  else if bool_decide (state = stateUpdated) then StateUpdated
  else if bool_decide (state = stateFailed) then StateFailed
  else StateIdle.

Definition sendStatus (h : Handler) : Handler :=
  let comps :=
    foldl (λ acc '(id, componentStatus),
             match handlerState.ComponentStatuses (state h) !! id with
             | Some updateStatus => acc ++ [componentStatus; updateStatus]
             | None => acc ++ [componentStatus]
             end) [] (map_to_list (componentStatuses h)) in
  let status :=
    Status.mk (toUMState (handlerState.UpdateState (state h)))
      (handlerState.Error (state h)) comps in
  setStatusChannel (statusChannel h ++ [status]) h.

(** *** onStateChanged *)

(** [for id, componentStatus := range handler.state.ComponentStatuses]:
    entries whose status is not Error are deleted. *)
Definition purgeStep (acc : gmap string ComponentStatusInfo.t)
    (entry : string * ComponentStatusInfo.t) : gmap string ComponentStatusInfo.t :=
  let '(id, componentStatus) := entry in
  if bool_decide (ComponentStatusInfo.Status componentStatus ≠ StatusError)
  then delete id acc else acc.

Definition purgeStatuses (m : gmap string ComponentStatusInfo.t)
    : gmap string ComponentStatusInfo.t :=
  foldl purgeStep m (map_to_list m).

Context (platform : Platform).

(** The errors of [os.RemoveAll] and [os.MkdirAll] are only logged. *)
Definition cleanDownloadDir (h : Handler) : Handler :=
  if bool_decide (downloadDir h ≠ String.EmptyString) then
    let '(w1, _) := os_RemoveAll platform (downloadDir h) (world h) in
    let '(w2, _) := os_MkdirAll platform (downloadDir h) w1 in
    setWorld w2 h
  else h.

Definition onStateChanged (event : FsmEvent) (h : Handler) : Outcome Handler :=
  let h := setUpdateState (FSM_Current (fsm h)) h in
  h1 ← (if bool_decide (handlerState.UpdateState (state h) = stateIdle) then
          h' ← getVersions h;
          let h' := setStateComponentStatuses
                      (purgeStatuses (handlerState.ComponentStatuses (state h'))) h' in
          Done (cleanDownloadDir h')
        else Done h);
  let '(h2, err) := saveState h1 in
  let h3 :=
    match err with
    | Some msg =>
        let h2 := if bool_decide (handlerState.Error (state h2) = String.EmptyString)
                  then setError msg h2 else h2 in
        let h2 := setUpdateState stateFailed h2 in
        setFsm (FSM_SetState (handlerState.UpdateState (state h2)) (fsm h2)) h2
    | None => h2
    end in
  Done (sendStatus h3).

(** *** componentError *)

(** A [*umclient.ComponentStatusInfo] handed around by the operations
    points into [handler.state.ComponentStatuses]; the model names it by the
    key of the entry. *)
Definition markError (msg : string) (st : ComponentStatusInfo.t) : ComponentStatusInfo.t :=
  ComponentStatusInfo.mk (ComponentStatusInfo.ID st) (ComponentStatusInfo.VendorVersion st)
    (ComponentStatusInfo.AosVersion st) StatusError msg.

Definition componentError (componentStatus : string) (err : string) (h : Handler) : Handler :=
  setStateComponentStatuses
    (alter (markError err) componentStatus (handlerState.ComponentStatuses (state h))) h.

(** Reading [componentStatus.ID] through the pointer; a key without entry
    is a dangling pointer, which the Go code cannot produce. *)
Definition statusID (componentStatus : string) (h : Handler) : Outcome string :=
  match handlerState.ComponentStatuses (state h) !! componentStatus with
  | Some st => Done (ComponentStatusInfo.ID st)
  | None => Panic
  end.

(** *** doOperation *)

Definition componentOperationFn : Type :=
  UpdateModule → Handler → Outcome (Handler * (bool * error)).

(** The closure appended to [operations]; it runs on the handler and on the
    named result [rebootStatuses] of [doOperation]. *)
Definition operationClosure (operation : componentOperationFn) (module : UpdateModule)
    (status : string) (s : Handler * list string)
    : Outcome ((Handler * list string) * error) :=
  let '(h, rebootStatuses) := s in
  '(h1, (rebootRequired, err)) ← operation module h;
  match err with
  | Some msg => Done ((componentError status msg h1, rebootStatuses), err)
  | None =>
      if (rebootRequired : bool) then Done ((h1, rebootStatuses ++ [status]), None)
      else Done ((h1, rebootStatuses), None)
  end.

(** The result of the loop that collects the operations: either every
    status was visited, or the loop returned at a component that is not
    found. *)
Inductive Collected (St : Type) :=
  | Collect (h : Handler) (operations : list (priorityOperation St)) (err : error)
  | Abort (h : Handler) (notFoundErr : string).
Arguments Collect {St} h operations err.
Arguments Abort {St} h notFoundErr.

Fixpoint collectOperations (operation : componentOperationFn) (stopOnError : bool)
    (componentStatuses : list string)
    (operations : list (priorityOperation (Handler * list string)))
    (err : error) (h : Handler) : Outcome (Collected (Handler * list string)) :=
  match componentStatuses with
  | [] => Done (Collect h operations err)
  | componentStatus :: rest =>
      id ← statusID componentStatus h;
      match components h !! id with
      | None =>
          let notFoundErr := "component " +:+ id +:+ " not found" in
          let h' := componentError componentStatus notFoundErr h in
          if stopOnError then Done (Abort h' notFoundErr)
          else collectOperations operation stopOnError rest operations
                 (firstError err (Some notFoundErr)) h'
      | Some component =>
          collectOperations operation stopOnError rest
            (operations ++
               [PriorityOperation (updatePriority component)
                  (operationClosure operation (module component) componentStatus)])
            err h
      end
  end.

(** [err = doPriorityOperations(operations, stopOnError)] overwrites the
    error kept by the loop. *)
Definition doOperation (componentStatuses : list string) (operation : componentOperationFn)
    (stopOnError : bool) (h : Handler) : Outcome (Handler * list string * error) :=
  c ← collectOperations operation stopOnError componentStatuses [] None h;
  match c with
  | Abort h' notFoundErr => Done (h', [], Some notFoundErr)
  | Collect h' operations _ =>
      '((h'', rebootStatuses), err) ← doPriorityOperations operations stopOnError (h', []);
      Done (h'', rebootStatuses, err)
  end.

(** *** doReboot *)

(** The closure of [doReboot] refers to the loop variable [componentStatus]
    itself (the module is copied into a local variable, the status is not).
    The closures run after the loop has ended, when the variable holds the
    last element of the list; [loopVar] is that element. *)
Definition rebootClosure (module : UpdateModule) (loopVar : string) (h : Handler)
    : Outcome (Handler * error) :=
  let '(h1, err) := callReboot module h in
  match err with
  | Some msg => Done (componentError loopVar msg h1, err)
  | None => Done (h1, None)
  end.

Fixpoint collectReboots (stopOnError : bool) (loopVar : string)
    (componentStatuses : list string) (operations : list (priorityOperation Handler))
    (err : error) (h : Handler) : Outcome (Collected Handler) :=
  match componentStatuses with
  | [] => Done (Collect h operations err)
  | componentStatus :: rest =>
      id ← statusID componentStatus h;
      match components h !! id with
      | None =>
          let notFoundErr := "component " +:+ id +:+ " not found" in
          let h' := componentError componentStatus notFoundErr h in
          if stopOnError then Done (Abort h' notFoundErr)
          else collectReboots stopOnError loopVar rest operations
                 (firstError err (Some notFoundErr)) h'
      | Some component =>
          collectReboots stopOnError loopVar rest
            (operations ++
               [PriorityOperation (rebootPriority component)
                  (rebootClosure (module component) loopVar)])
            err h
      end
  end.

Definition doReboot (componentStatuses : list string) (stopOnError : bool) (h : Handler)
    : Outcome (Handler * error) :=
  c ← collectReboots stopOnError (List.last componentStatuses String.EmptyString)
        componentStatuses [] None h;
  match c with
  | Abort h' notFoundErr => Done (h', Some notFoundErr)
  | Collect h' operations _ => doPriorityOperations operations stopOnError h'
  end.

(** *** componentOperation *)

(** The loop [for len(operationStatuses) != 0]; one unit of fuel per
    iteration. *)
Fixpoint componentOperationLoop (fuel : nat) (operation : componentOperationFn)
    (stopOnError : bool) (operationStatuses : list string) (err : error) (h : Handler)
    : Outcome (Handler * error) :=
  match operationStatuses with
  | [] => Done (h, err)
  | _ :: _ =>
      match fuel with
      | O => OutOfFuel
      | S fuel' =>
          '(h1, rebootStatuses, opError) ← doOperation operationStatuses operation stopOnError h;
          if bool_decide (is_Some opError) && stopOnError then Done (h1, opError)
          else
            let err := firstError err opError in
            match rebootStatuses with
            | [] => Done (h1, err)
            | _ :: _ =>
                '(h2, rebootError) ← doReboot rebootStatuses stopOnError h1;
                if bool_decide (is_Some rebootError) && stopOnError then Done (h2, rebootError)
                else
                  componentOperationLoop fuel' operation stopOnError rebootStatuses
                    (firstError err rebootError) h2
            end
      end
  end.

Definition componentOperation (fuel : nat) (operation : componentOperationFn)
    (stopOnError : bool) (h : Handler) : Outcome (Handler * error) :=
  componentOperationLoop fuel operation stopOnError
    (map fst (map_to_list (handlerState.ComponentStatuses (state h)))) None h.

(** *** downloadImage, prepareComponent *)

Definition downloadImage (downloadDir urlStr : string) (w : W) : W * (string * error) :=
  let '((scheme, path), err) := url_Parse platform urlStr in
  match err with
  | Some _ => (w, (String.EmptyString, err))
  | None =>
      if bool_decide (scheme = "file") then (w, (path, None))
      else
        let '(w', (filename, err)) := grab_Do platform downloadDir urlStr w in
        match err with
        | Some _ => (w', (String.EmptyString, err))
        | None => (w', (filename, None))
        end
  end.

Definition callDownloadImage (urlStr : string) (h : Handler) : Handler * (string * error) :=
  let '(w, r) := downloadImage (downloadDir h) urlStr (world h) in
  (logCall (CallDownloadImage (downloadDir h) urlStr) (setWorld w h), r).

(** The checks of [prepareComponent] on the Aos version. *)
Definition checkAosVersion (updateInfo : ComponentUpdateInfo.t) (s : StateStorage.t) : error :=
  if bool_decide (ComponentUpdateInfo.AosVersion updateInfo ≠ 0%N) then
    let '(aosVersion, err) := StateStorage.GetAosVersion (ComponentUpdateInfo.ID updateInfo) s in
    match err with
    | None =>
        if bool_decide (aosVersion = ComponentUpdateInfo.AosVersion updateInfo) then
          Some ("Component already has required Aos version: "
                +:+ pretty (ComponentUpdateInfo.AosVersion updateInfo))
        else if bool_decide (ComponentUpdateInfo.AosVersion updateInfo < aosVersion)%N then
          Some "wrong Aos version"
        else None
    | Some _ => None
    end
  else None.

Definition prepareComponent (module : UpdateModule) (updateInfo : ComponentUpdateInfo.t)
    (h : Handler) : Outcome (Handler * error) :=
  match componentStatuses h !! ComponentUpdateInfo.ID updateInfo with
  | None => Panic
  | Some current =>
      let '(h1, err) :=
        storageSetVendorVersion (ComponentUpdateInfo.ID updateInfo)
          (ComponentStatusInfo.VendorVersion current) h in
      match err with
      | Some _ => Done (h1, err)
      | None =>
          let '(h2, (vendorVersion, err)) := callGetVendorVersion module h1 in
          if bool_decide (err = None)
             && bool_decide (ComponentUpdateInfo.VendorVersion updateInfo ≠ String.EmptyString)
             && bool_decide (vendorVersion = ComponentUpdateInfo.VendorVersion updateInfo)
          then Done (h2, Some ("Component already has required vendor version: "
                               +:+ vendorVersion))
          else
            match checkAosVersion updateInfo (storage h2) with
            | Some msg => Done (h2, Some msg)
            | None =>
                let '(h3, (filePath, err)) :=
                  callDownloadImage (ComponentUpdateInfo.URL updateInfo) h2 in
                match err with
                | Some _ => Done (h3, err)
                | None =>
                    let '(w, err) :=
                      image_CheckFileInfo platform filePath
                        (ComponentUpdateInfo.Sha256 updateInfo)
                        (ComponentUpdateInfo.Sha512 updateInfo)
                        (ComponentUpdateInfo.Size updateInfo) (world h3) in
                    let h4 := setWorld w h3 in
                    match err with
                    | Some _ => Done (h4, err)
                    | None =>
                        let '(h5, err) :=
                          callPrepare module filePath
                            (ComponentUpdateInfo.VendorVersion updateInfo)
                            (ComponentUpdateInfo.Annotations updateInfo) h4 in
                        match err with
                        | Some _ => Done (h5, err)
                        | None => Done (h5, None)
                        end
                    end
                end
            end
      end
  end.

(** *** The callbacks of the events *)

(** [handler.state.Error = err.Error(); handler.fsm.SetState(stateFailed)] *)
Definition failTransition (msg : string) (h : Handler) : Handler :=
  let h := setError msg h in
  setFsm (FSM_SetState stateFailed (fsm h)) h.

(** The operation closure of [onPrepareState]. *)
Definition prepareOperation (componentsInfo : gmap string ComponentUpdateInfo.t)
    : componentOperationFn :=
  λ module h,
    match componentsInfo !! GetID module with
    | None =>
        Done (h, (false, Some ("update info for " +:+ GetID module
                               +:+ " component not found")))
    | Some updateInfo =>
        '(h', err) ← prepareComponent module updateInfo h;
        Done (h', (false, err))
    end.

Definition newStatus (info : ComponentUpdateInfo.t) : ComponentStatusInfo.t :=
  ComponentStatusInfo.mk (ComponentUpdateInfo.ID info)
    (ComponentUpdateInfo.VendorVersion info) (ComponentUpdateInfo.AosVersion info)
    StatusInstalling String.EmptyString.

Definition onPrepareState (fuel : nat) (event : FsmEvent) (h : Handler) : Outcome Handler :=
  let h := setError String.EmptyString h in
  let h := setStateComponentStatuses ∅ h in
  match Event_Args event with
  | [] => Panic
  | infos :: _ =>
      match infos with
      | [] =>
          let h := setError "Prepare componenet list is empty" h in
          Done (setFsm (FSM_SetState stateFailed (fsm h)) h)
      | _ :: _ =>
          let componentsInfo : gmap string ComponentUpdateInfo.t :=
            foldl (λ m info, <[ComponentUpdateInfo.ID info := info]> m) ∅ infos in
          let h :=
            foldl (λ h info,
                     setStateComponentStatuses
                       (<[ComponentUpdateInfo.ID info := newStatus info]>
                          (handlerState.ComponentStatuses (state h))) h) h infos in
          '(h', err) ← componentOperation fuel (prepareOperation componentsInfo) true h;
          match err with
          | Some msg => Done (failTransition msg h')
          | None => Done h'
          end
      end
  end.

Definition updateOperation : componentOperationFn :=
  λ module h,
    let '(h1, (rebootRequired, err)) := callUpdate module h in
    match err with
    | Some _ => Done (h1, (false, err))
    | None =>
        if negb rebootRequired then
          let '(h2, (vendorVersion, err)) := callGetVendorVersion module h1 in
          match err with
          | Some _ => Done (h2, (false, err))
          | None =>
              match handlerState.ComponentStatuses (state h2) !! GetID module with
              | None => Panic
              | Some st =>
                  if bool_decide (vendorVersion ≠ ComponentStatusInfo.VendorVersion st) then
                    Done (h2, (false,
                      Some ("versions mismatch in request "
                            +:+ ComponentStatusInfo.VendorVersion st
                            +:+ " and updated module " +:+ vendorVersion)))
                  else Done (h2, (rebootRequired, None))
              end
          end
        else Done (h1, (rebootRequired, None))
    end.

Definition onUpdateState (fuel : nat) (event : FsmEvent) (h : Handler) : Outcome Handler :=
  let h := setError String.EmptyString h in
  '(h', err) ← componentOperation fuel updateOperation true h;
  match err with
  | Some msg => Done (failTransition msg h')
  | None => Done h'
  end.

Definition applyOperation : componentOperationFn :=
  λ module h,
    let '(h1, (rebootRequired, err)) := callApply module h in
    match err with
    | Some _ => Done (h1, (rebootRequired, err))
    | None =>
        match handlerState.ComponentStatuses (state h1) !! GetID module with
        | None =>
            Done (h1, (rebootRequired,
                       Some ("component " +:+ GetID module +:+ " status not found")))
        | Some componentStatus =>
            let '(h2, err) :=
              storageSetAosVersion (ComponentStatusInfo.ID componentStatus)
                (ComponentStatusInfo.AosVersion componentStatus) h1 in
            match err with
            | Some _ => Done (h2, (rebootRequired, err))
            | None => Done (h2, (rebootRequired, None))
            end
        end
    end.

Definition onApplyState (fuel : nat) (event : FsmEvent) (h : Handler) : Outcome Handler :=
  let h := setError String.EmptyString h in
  '(h', err) ← componentOperation fuel applyOperation false h;
  match err with
  | Some msg => Done (setError msg h')
  | None => Done h'
  end.

Definition revertOperation : componentOperationFn :=
  λ module h, Done (callRevert module h).

Definition onRevertState (fuel : nat) (event : FsmEvent) (h : Handler) : Outcome Handler :=
  let h := setError String.EmptyString h in
  '(h', err) ← componentOperation fuel revertOperation false h;
  match err with
  | Some msg => Done (setError msg h')
  | None => Done h'
  end.

(** *** The state machine at work *)

(** [afterEventCallbacks]: the callback after_<event>, then after_event. *)
Definition afterEventCallbacks (fuel : nat) (e : FsmEvent) (h : Handler) : Outcome Handler :=
  h1 ← (if bool_decide (Event_Event e = eventPrepare) then onPrepareState fuel e h
        else if bool_decide (Event_Event e = eventUpdate) then onUpdateState fuel e h
        else if bool_decide (Event_Event e = eventApply) then onApplyState fuel e h
        else if bool_decide (Event_Event e = eventRevert) then onRevertState fuel e h
        else Done h);
  onStateChanged e h1.

(** [FSM.Event].  No before_ callback is registered.  The callback
    leave_state calls [e.Async()], so a transition to another state is set
    up and left for [FSM.Transition]. *)
Definition FSM_Event (fuel : nat) (event : string) (args : list (list ComponentUpdateInfo.t))
    (h : Handler) : Outcome (Handler * option FsmError) :=
  match transition (fsm h) with
  | Some _ => Done (h, Some (InTransitionError event))
  | None =>
      match transitions (fsm h) !! (event, current (fsm h)) with
      | None =>
          if existsb (λ '((ev, _), _), bool_decide (ev = event))
               (map_to_list (transitions (fsm h)))
          then Done (h, Some (InvalidEventError event (current (fsm h))))
          else Done (h, Some (UnknownEventError event))
      | Some dst =>
          let e := mkFsmEvent event (current (fsm h)) dst args in
          if bool_decide (current (fsm h) = dst) then
            h' ← afterEventCallbacks fuel e h;
            Done (h', Some NoTransitionError)
          else
            Done (setFsm (mkFSM (current (fsm h)) (transitions (fsm h)) (Some e)) h,
                  Some AsyncError)
      end
  end.

(** [FSM.Transition]: the state becomes the destination, the callbacks run,
    then the transition is over.  No enter_ callback is registered. *)
Definition FSM_Transition (fuel : nat) (h : Handler) : Outcome (Handler * option FsmError) :=
  match transition (fsm h) with
  | None => Done (h, Some NotInTransitionError)
  | Some e =>
      let h := setFsm (mkFSM (Event_Dst e) (transitions (fsm h)) (transition (fsm h))) h in
      h' ← afterEventCallbacks fuel e h;
      Done (setFsm (mkFSM (current (fsm h')) (transitions (fsm h')) None) h', None)
  end.

(** [sendEvent]; on [AsyncError] the Go code starts a goroutine that calls
    [FSM.Transition]: that call is the separate step [runTransition]. *)
Definition sendEvent (fuel : nat) (event : string) (args : list (list ComponentUpdateInfo.t))
    (h : Handler) : Outcome (Handler * error) :=
  if FSM_Cannot (fsm h) event then
    Done (h, Some ("error sending event " +:+ event +:+ " in state: "
                   +:+ FSM_Current (fsm h)))
  else
    '(h', err) ← FSM_Event fuel event args h;
    match err with
    | Some AsyncError => Done (h', None)
    | Some e => Done (h', Some (FsmError_text e))
    | None => Done (h', None)
    end.

Definition runTransition (fuel : nat) (h : Handler) : Outcome Handler :=
  '(h', _) ← FSM_Transition fuel h;
  Done h'.

(** The public methods: the error of [sendEvent] is only logged. *)
Definition PrepareUpdate (fuel : nat) (components : list ComponentUpdateInfo.t) (h : Handler)
    : Outcome Handler :=
  '(h', _) ← sendEvent fuel eventPrepare [components] h; Done h'.
Definition StartUpdate (fuel : nat) (h : Handler) : Outcome Handler :=
  '(h', _) ← sendEvent fuel eventUpdate [] h; Done h'.
Definition RevertUpdate (fuel : nat) (h : Handler) : Outcome Handler :=
  '(h', _) ← sendEvent fuel eventRevert [] h; Done h'.

(** *** New and init *)

Definition NewPlugin : Type := string → string → UpdateModule + string.

Fixpoint createComponents (plugins : gmap string NewPlugin) (modules : list ModuleConfig)
    (acc : gmap string componentData) : gmap string componentData + string :=
  match modules with
  | [] => inl acc
  | moduleCfg :: rest =>
      if cfg_Disabled moduleCfg then createComponents plugins rest acc
      else
        match plugins !! cfg_Plugin moduleCfg with
        | None => inr ("plugin " +:+ cfg_Plugin moduleCfg +:+ " not found")
        | Some newFunc =>
            match newFunc (cfg_ID moduleCfg) (cfg_Params moduleCfg) with
            | inr msg => inr msg
            | inl m =>
                createComponents plugins rest
                  (<[cfg_ID moduleCfg :=
                       mkComponentData m (cfg_UpdatePriority moduleCfg)
                         (cfg_RebootPriority moduleCfg)]> acc)
            end
        end
  end.

(** [New] up to the start of the goroutine [init]. *)
Definition New (plugins : gmap string NewPlugin) (cfg : Config)
    (stateStorage : StateStorage.t) (w : W) : Handler + string :=
  let h := mkHandler stateStorage ∅ ∅ (handlerState.mk String.EmptyString String.EmptyString ∅)
             (NewFSM String.EmptyString []) (DownloadDir cfg) [] w [] in
  let '(h, err) := getState h in
  match err with
  | Some msg => inr msg
  | None =>
      let h := if bool_decide (handlerState.UpdateState (state h) = String.EmptyString)
               then setUpdateState stateIdle h else h in
      let h := setFsm (NewFSM (handlerState.UpdateState (state h)) handlerEvents) h in
      match createComponents plugins (UpdateModules cfg) ∅ with
      | inr msg => inr msg
      | inl comps =>
          inl (mkHandler (storage h) comps (componentStatuses h) (state h) (fsm h)
                 (downloadDir h) (statusChannel h) (world h) (calls h))
      end
  end.

Definition initClosure (m : UpdateModule) (id : string) (h : Handler)
    : Outcome (Handler * error) :=
  let '(h1, err) := callInit m h in
  match err with
  | Some msg =>
      match componentStatuses h1 !! id with
      | None => Panic
      | Some st =>
          Done (setComponentStatuses (<[id := markError msg st]> (componentStatuses h1)) h1,
                None)
      end
  | None => Done (h1, None)
  end.

Definition init (h : Handler) : Outcome Handler :=
  let '(h1, operations) :=
    foldl (λ '(h, operations) '(id, component),
             (setComponentStatuses
                (<[id := ComponentStatusInfo.mk id String.EmptyString 0%N StatusInstalled
                           String.EmptyString]> (componentStatuses h)) h,
              operations ++ [PriorityOperation (updatePriority component)
                               (initClosure (module component) id)]))
          (h, []) (map_to_list (components h)) in
  '(h2, _) ← doPriorityOperations operations false h1;
  getVersions h2.

End Handler.
Arguments UpdateModule W : clear implicits.
Arguments Platform W : clear implicits.
Arguments componentData W : clear implicits.
Arguments Handler W : clear implicits.
Arguments componentOperationFn W : clear implicits.
Arguments NewPlugin W : clear implicits.
Arguments Collect {W St} h operations err.
Arguments Abort {W St} h notFoundErr.

(** The table of the state machine every handler is created with. *)
Definition handlerTransitions : gmap (string * string) string :=
  transitions (NewFSM String.EmptyString handlerEvents).

(** The events with an entry in the table for a state. *)
Definition allowed_in (event src : string) : Prop :=
  (event = eventPrepare ∧ src = stateIdle)
  ∨ (event = eventUpdate ∧ src = statePrepared)
  ∨ (event = eventApply ∧ src = stateUpdated)
  ∨ (event = eventRevert
     ∧ (src = statePrepared ∨ src = stateUpdated ∨ src = stateFailed)).

(** ** A test bench: scripted modules on an in-memory platform *)

Module Bench.

(** The world of the bench: the vendor version each module reports, the
    number of reboots each module still asks for, and the directories of the
    file system with their entries. *)
Record World := mkWorld {
  versions : gmap string string;
  reboots : gmap string nat;
  dirs : gmap string (list string)
}.

(** A module that asks for a reboot as long as its counter is positive,
    then installs [newVersion]. *)
Definition scripted (id newVersion : string) : UpdateModule World :=
  mkUpdateModule id
    (λ w, (w, (default String.EmptyString (versions w !! id), None)))
    (λ w, (w, None))
    (λ _ _ _ w, (w, None))
    (λ w, match reboots w !! id with
          | Some (S n) => (mkWorld (versions w) (<[id := n]> (reboots w)) (dirs w), (true, None))
          | _ => (mkWorld (<[id := newVersion]> (versions w)) (reboots w) (dirs w),
                  (false, None))
          end)
    (λ w, (w, (false, None)))
    (λ w, (w, (false, None)))
    (λ w, (w, None))
    (λ w, (w, None)).

(** Every URL is a file URL; removing a directory forgets it, creating it
    anew gives it no entries. *)
Definition platform : Platform World :=
  mkPlatform (λ u, (("file"%string, u), None))
    (λ _ u w, (w, (u, None)))
    (λ _ _ _ _ w, (w, None))
    (λ d w, (mkWorld (versions w) (reboots w) (delete d (dirs w)), None))
    (λ d w, (mkWorld (versions w) (reboots w)
               (match dirs w !! d with
                | Some _ => dirs w
                | None => <[d := []]> (dirs w)
                end), None)).

Definition plugins : gmap string (NewPlugin World) :=
  {[ "scripted"%string := λ id params, inl (scripted id params) ]}.

Definition downloads : string := "/var/aos/downloads".

(** One module m1 that goes to vendor version 2.0, two modules with
    priorities 20 and 10 in [cfg3]. *)
Definition cfg : Config :=
  mkConfig downloads [mkModuleConfig "m1" "scripted" 10 0 false "2.0"].

Definition world0 : World :=
  mkWorld {[ "m1"%string := "1.0"%string ]} {[ "m1"%string := 1 ]}
    {[ downloads := ["stale.img"%string] ]}.

Definition emptyStorage : StateStorage.t := StateStorage.mk None ∅ ∅ true true.

Definition blank : Handler World :=
  mkHandler emptyStorage ∅ ∅ (handlerState.mk stateIdle String.EmptyString ∅)
    (NewFSM stateIdle handlerEvents) downloads [] world0 [].

(** The handler after [New] and [init]. *)
Definition start (c : Config) (s : StateStorage.t) (w : World) : Handler World :=
  match New plugins c s w with
  | inl h => match init h with Done h' => h' | _ => blank end
  | inr _ => blank
  end.

Definition item (id vendorVersion : string) (aosVersion : N) : ComponentUpdateInfo.t :=
  ComponentUpdateInfo.mk id vendorVersion aosVersion "file:///tmp/img" 4 "sha256" "sha512" "{}".

(** An event followed by the transition it starts. *)
Definition settle (ev : Handler World → Outcome (Handler World)) (h : Handler World)
    : Handler World :=
  match ev h with
  | Done h1 => match runTransition platform 8 h1 with Done h2 => h2 | _ => blank end
  | _ => blank
  end.

Definition idle : Handler World := start cfg emptyStorage world0.
Definition prepared : Handler World :=
  settle (PrepareUpdate platform 8 [item "m1" "2.0" 5]) idle.

(** Two update statuses, one of them in error, at the moment the machine
    enters idle. *)
Definition withErrors : Handler World :=
  setStateComponentStatuses
    {[ "m1"%string := ComponentStatusInfo.mk "m1" "2.0" 5 StatusError "no space left";
       "m2"%string := ComponentStatusInfo.mk "m2" "3.0" 6 StatusInstalling "" ]} idle.

Definition applyEvent : FsmEvent := mkFsmEvent eventApply stateUpdated stateIdle [].

Definition reentered : Handler World :=
  match onStateChanged platform applyEvent withErrors with
  | Done h => h
  | _ => blank
  end.

(** A module that installs 3.0 where 2.0 is requested. *)
Definition cfgOther : Config :=
  mkConfig downloads [mkModuleConfig "m1" "scripted" 10 0 false "3.0"].

Definition updateEvent : FsmEvent := mkFsmEvent eventUpdate statePrepared stateUpdated [].

Definition pendingMismatch : Handler World :=
  match StartUpdate platform 8
          (settle (PrepareUpdate platform 8 [item "m1" "2.0" 5])
             (start cfgOther emptyStorage world0)) with
  | Done h => h
  | _ => blank
  end.

Definition mismatched : Handler World :=
  match runTransition platform 8 pendingMismatch with
  | Done h => h
  | _ => blank
  end.



End Bench.

(** ** Notions used in the statements *)

Section Notions.
Context {W : Type}.
Implicit Types (h : Handler W).

(** The request data of the update statuses: id, vendor version and Aos
    version of every entry. *)
Definition requestOf (st : ComponentStatusInfo.t) : string * string * N :=
  (ComponentStatusInfo.ID st, ComponentStatusInfo.VendorVersion st,
   ComponentStatusInfo.AosVersion st).

Definition sameRequest (m m' : gmap string ComponentStatusInfo.t) : Prop :=
  ∀ k, requestOf <$> (m' !! k) = requestOf <$> (m !! k).

(** What the operations of a transition leave alone: only the world, the
    log, the stored versions and the status and error of the update statuses
    change. *)
Record frame (h h' : Handler W) : Prop := mkFrame {
  frame_components : components h' = components h;
  frame_componentStatuses : componentStatuses h' = componentStatuses h;
  frame_fsm : fsm h' = fsm h;
  frame_downloadDir : downloadDir h' = downloadDir h;
  frame_statusChannel : statusChannel h' = statusChannel h;
  frame_UpdateState :
    handlerState.UpdateState (state h') = handlerState.UpdateState (state h);
  frame_Error : handlerState.Error (state h') = handlerState.Error (state h);
  frame_request :
    sameRequest (handlerState.ComponentStatuses (state h))
      (handlerState.ComponentStatuses (state h'));
  frame_updateState :
    StateStorage.updateState (storage h') = StateStorage.updateState (storage h);
  frame_stateWritable :
    StateStorage.stateWritable (storage h') = StateStorage.stateWritable (storage h);
  frame_versionsWritable :
    StateStorage.versionsWritable (storage h') = StateStorage.versionsWritable (storage h);
  frame_calls : calls h `prefix_of` calls h'
}.

(** A module answers [GetID] with the id it is registered under. *)
Definition wfComponents h : Prop :=
  ∀ k cd, components h !! k = Some cd → GetID (module cd) = k.

(** An update status is filed under its own id. *)
Definition wfStatuses h : Prop :=
  ∀ k st, handlerState.ComponentStatuses (state h) !! k = Some st →
          ComponentStatusInfo.ID st = k.

(** [init] has given every component its run-time status. *)
Definition initialised h : Prop :=
  ∀ k, is_Some (components h !! k) → is_Some (componentStatuses h !! k).

(** What a component operation may do. *)
Definition opFrame (op : componentOperationFn W) : Prop :=
  ∀ m h h' r, op m h = Done (h', r) → frame h h'.

(** The operations [collectOperations] gathers are closures of the given
    operation, one for a status of the list whose component is known. *)
Definition closureOf (op : componentOperationFn W) (h : Handler W) (keys : list string)
    (o : priorityOperation (Handler W * list string)) : Prop :=
  ∃ k cd, k ∈ keys
    ∧ (∃ st, handlerState.ComponentStatuses (state h) !! k = Some st
             ∧ components h !! ComponentStatusInfo.ID st = Some cd)
    ∧ o = PriorityOperation (updatePriority cd) (operationClosure op (module cd) k).

(** The log of [h] is the log of [h0] followed by calls with property [Q]. *)
Definition extends (h0 h : Handler W) (Q : list Call → Prop) : Prop :=
  ∃ new, calls h = calls h0 ++ new ∧ Q new.

(** Every Update that asked for no reboot is followed by a read of the
    vendor version of the same module. *)
Definition vendorRead (new : list Call) : Prop :=
  ∀ c, CallUpdate c false None ∈ new → ∃ v err, CallGetVendorVersion c v err ∈ new.

(** Every read of a vendor version succeeded and gave the version that was
    requested for the component. *)
Definition vendorMatches (h0 : Handler W) (new : list Call) : Prop :=
  ∀ c v err, CallGetVendorVersion c v err ∈ new →
    err = None
    ∧ ∀ st, handlerState.ComponentStatuses (state h0) !! c = Some st →
            v = ComponentStatusInfo.VendorVersion st.







End Notions.

(** * Properties *)

(** A closed equation that holds by evaluation. *)
Ltac by_conv :=
  match goal with
  | |- _ = ?r => exact_no_check (eq_refl r)
  end.


(** ** Outcomes *)

Lemma bind_Done {A B : Type} (m : Outcome A) (f : A → Outcome B) (b : B) :
  m ≫= f = Done b ↔ ∃ a, m = Done a ∧ f a = Done b.
Proof.
  destruct m as [a| |]; simpl; split.
  - intros H. exists a. split; [reflexivity | exact H].
  - intros (a' & Ha & Hf). injection Ha as ->. exact Hf.
  - discriminate.
  - intros (a' & Ha & _). discriminate.
  - discriminate.
  - intros (a' & Ha & _). discriminate.
Qed.

(** A computation that ends is [Done] of what it leaves. *)
Lemma Done_proj {A : Type} (o : Outcome A) (d : A) :
  (match o with Done _ => true | _ => false end) = true →
  o = Done (match o with Done a => a | _ => d end).
Proof. destruct o; [reflexivity | discriminate..]. Qed.

(** A pending transition that ends gives the handler [runTransition] gives,
    and no error. *)
Lemma FSM_Transition_proj {W : Type} (platform : Platform W) fuel (h d : Handler W) :
  (match transition (fsm h), runTransition platform fuel h with
   | Some _, Done _ => true
   | _, _ => false
   end) = true →
  FSM_Transition platform fuel h
  = Done (match runTransition platform fuel h with Done h' => h' | _ => d end, None).
Proof.
  unfold runTransition, FSM_Transition.
  destruct (transition (fsm h)) as [e|]; [|discriminate].
  cbn zeta. destruct (afterEventCallbacks _ _ _ _) as [h'| |];
    [reflexivity | discriminate..].
Qed.




(** A closed computation that ends, with the handler it leaves given as its
    own result. *)
Ltac by_Done d :=
  match goal with
  | |- ?o = Done _ =>
      let H := fresh in
      assert ((match o with Done _ => true | _ => false end) = true) as H
        by (exact_no_check (eq_refl true));
      exact_no_check (Done_proj o d H)
  end.

Ltac by_Transition d :=
  match goal with
  | |- FSM_Transition ?p ?fuel ?h = Done _ =>
      let H := fresh in
      assert ((match transition (fsm h), runTransition p fuel h with
               | Some _, Done _ => true
               | _, _ => false
               end) = true) as H
        by (exact_no_check (eq_refl true));
      exact_no_check (FSM_Transition_proj p fuel h d H)
  end.

(** The log of a closed run, as an extension of the log it started from. *)
Ltac by_calls log :=
  match goal with
  | |- calls _ = calls ?h ++ _ =>
      let H := fresh in
      assert (calls h = log) as H by by_conv;
      rewrite H; by_conv
  end.

(** ** The state machine *)

Lemma handlerTransitions_lookup (event src dst : string) :
  handlerTransitions !! (event, src) = Some dst ↔
    (event = eventPrepare ∧ src = stateIdle ∧ dst = statePrepared)
    ∨ (event = eventUpdate ∧ src = statePrepared ∧ dst = stateUpdated)
    ∨ (event = eventApply ∧ src = stateUpdated ∧ dst = stateIdle)
    ∨ (event = eventRevert
       ∧ (src = statePrepared ∨ src = stateUpdated ∨ src = stateFailed)
       ∧ dst = stateIdle).
Proof.
  unfold handlerTransitions, NewFSM, handlerEvents, addEvent. simpl.
  rewrite !lookup_insert_Some, lookup_empty.
  unfold eventPrepare, eventUpdate, eventApply, eventRevert,
    stateIdle, statePrepared, stateUpdated, stateFailed.
  split.
  - intros H.
    repeat match goal with
           | H : _ ∨ _ |- _ => destruct H as [H | H]
           | H : _ ∧ _ |- _ => destruct H
           | H : (_, _) = (_, _) |- _ => injection H as <- <-
           end; subst; try discriminate; tauto.
  - intros H.
    repeat match goal with
           | H : _ ∨ _ |- _ => destruct H as [H | H]
           | H : _ ∧ _ |- _ => destruct H
           end; subst;
    repeat first [ left; split; reflexivity | right; split; [discriminate|] ].
Qed.

Lemma handlerTransitions_is_Some (event src : string) :
  is_Some (handlerTransitions !! (event, src)) ↔ allowed_in event src.
Proof.
  unfold is_Some, allowed_in. split.
  - intros [dst H]. apply handlerTransitions_lookup in H. tauto.
  - intros H.
    assert (∃ dst,
      (event = eventPrepare ∧ src = stateIdle ∧ dst = statePrepared)
      ∨ (event = eventUpdate ∧ src = statePrepared ∧ dst = stateUpdated)
      ∨ (event = eventApply ∧ src = stateUpdated ∧ dst = stateIdle)
      ∨ (event = eventRevert
         ∧ (src = statePrepared ∨ src = stateUpdated ∨ src = stateFailed)
         ∧ dst = stateIdle)) as [dst Hd].
    { destruct H as [[? ?]|[[? ?]|[[? ?]|[? ?]]]].
      - exists statePrepared. tauto.
      - exists stateUpdated. tauto.
      - exists stateIdle. tauto.
      - exists stateIdle. tauto. }
    exists dst. apply handlerTransitions_lookup. exact Hd.
Qed.

Lemma handlerTransitions_no_loop (event src dst : string) :
  handlerTransitions !! (event, src) = Some dst → src ≠ dst.
Proof.
  intros H. apply handlerTransitions_lookup in H.
  unfold stateIdle, statePrepared, stateUpdated, stateFailed in H.
  intros ->.
  repeat match goal with
         | H : _ ∨ _ |- _ => destruct H as [H | H]
         | H : _ ∧ _ |- _ => destruct H
         end; subst; discriminate.
Qed.

Section StateMachine.
Context {W : Type} (platform : Platform W).
Implicit Types (h : Handler W) (event : string).

Lemma FSM_Can_true h event :
  transitions (fsm h) = handlerTransitions →
  FSM_Can (fsm h) event = true ↔
    allowed_in event (current (fsm h)) ∧ transition (fsm h) = None.
Proof.
  intros Htbl. unfold FSM_Can. rewrite Htbl, andb_true_iff, !bool_decide_eq_true.
  rewrite handlerTransitions_is_Some. reflexivity.
Qed.

Lemma sendEvent_rejected fuel event args h :
  FSM_Can (fsm h) event = false →
  sendEvent platform fuel event args h
  = Done (h, Some ("error sending event " +:+ event +:+ " in state: "
                   +:+ current (fsm h))).
Proof.
  intros H. unfold sendEvent, FSM_Cannot. rewrite H. reflexivity.
Qed.

Lemma sendEvent_accepted fuel event args h :
  transitions (fsm h) = handlerTransitions →
  FSM_Can (fsm h) event = true →
  ∃ dst,
    handlerTransitions !! (event, current (fsm h)) = Some dst
    ∧ sendEvent platform fuel event args h
      = Done (setFsm (mkFSM (current (fsm h)) (transitions (fsm h))
                        (Some (mkFsmEvent event (current (fsm h)) dst args))) h,
              None).
Proof.
  intros Htbl Hcan.
  pose proof Hcan as Hcan'. apply FSM_Can_true in Hcan' as [Hadm Hnone]; [|exact Htbl].
  apply handlerTransitions_is_Some in Hadm as [dst Hdst].
  exists dst. split; [exact Hdst|].
  unfold sendEvent, FSM_Cannot. rewrite Hcan. simpl.
  unfold FSM_Event. rewrite Hnone, Htbl, Hdst.
  rewrite bool_decide_eq_false_2; [reflexivity|].
  eapply handlerTransitions_no_loop; exact Hdst.
Qed.

(** C1: an event sent in a state outside of its source set (prepare: idle;
    update: prepared; apply: updated; revert: prepared, updated or failed)
    is answered with the wrong-state error and leaves the handler, hence the
    state of the machine, as it was; in state failed the event that is
    accepted is revert and no other. *)
Theorem sendEvent_wrong_state fuel event args h :
  transitions (fsm h) = handlerTransitions →
  ((event = eventPrepare ∧ current (fsm h) ≠ stateIdle)
   ∨ (event = eventUpdate ∧ current (fsm h) ≠ statePrepared)
   ∨ (event = eventApply ∧ current (fsm h) ≠ stateUpdated)
   ∨ (event = eventRevert ∧ current (fsm h) ≠ statePrepared
      ∧ current (fsm h) ≠ stateUpdated ∧ current (fsm h) ≠ stateFailed) →
   sendEvent platform fuel event args h
   = Done (h, Some ("error sending event " +:+ event +:+ " in state: "
                    +:+ current (fsm h))))
  ∧ (current (fsm h) = stateFailed → transition (fsm h) = None →
     ∀ ev a, (∃ h', sendEvent platform fuel ev a h = Done (h', None)) ↔ ev = eventRevert).
Proof.
  intros Htbl. split.
  - intros Hout. apply sendEvent_rejected.
    destruct (FSM_Can (fsm h) event) eqn:Hcan; [|reflexivity].
    apply FSM_Can_true in Hcan as [Hadm _]; [|exact Htbl].
    unfold allowed_in, eventPrepare, eventUpdate, eventApply, eventRevert in *.
    repeat match goal with
           | H : _ ∨ _ |- _ => destruct H as [H | H]
           | H : _ ∧ _ |- _ => destruct H
           end; subst; try discriminate; congruence.
  - intros Hfailed Hnone ev a. split.
    + intros [h' Hsend].
      destruct (FSM_Can (fsm h) ev) eqn:Hcan.
      * apply FSM_Can_true in Hcan as [Hadm _]; [|exact Htbl].
        rewrite Hfailed in Hadm.
        unfold allowed_in, stateIdle, statePrepared, stateUpdated, stateFailed in Hadm.
        repeat match goal with
               | H : _ ∨ _ |- _ => destruct H as [H | H]
               | H : _ ∧ _ |- _ => destruct H
               end; subst; try discriminate; reflexivity.
      * rewrite (sendEvent_rejected _ _ _ _ Hcan) in Hsend. discriminate.
    + intros ->.
      destruct (sendEvent_accepted fuel eventRevert a h Htbl) as (dst & _ & Hs).
      * apply FSM_Can_true; [exact Htbl|]. split; [|exact Hnone].
        rewrite Hfailed. unfold allowed_in. tauto.
      * eexists. exact Hs.
Qed.

End StateMachine.

Lemma sendEvent_wrong_state_witness :
  sendEvent Bench.platform 1 eventUpdate [] Bench.idle
  = Done (Bench.idle, Some "error sending event update in state: idle").
Proof.
  apply (sendEvent_wrong_state Bench.platform 1 eventUpdate [] Bench.idle).
  - by_conv.
  - right. left. split; [reflexivity | vm_compute; discriminate].
Defined.

(** ** The priority scheduler *)

Section SchedulerProperties.
Context {St : Type}.
Implicit Types (o x y : priorityOperation St) (l g : list (priorityOperation St))
  (gs : list (list (priorityOperation St))) (s : St) (e : error).

Lemma firstError_None_r e : firstError e None = e.
Proof. destruct e; reflexivity. Qed.

Lemma firstError_assoc (a b c : error) :
  firstError a (firstError b c) = firstError (firstError a b) c.
Proof. destruct a; reflexivity. Qed.

(** *** Sorting *)

Lemma insertByPriority_perm x l : insertByPriority x l ≡ₚ x :: l.
Proof.
  induction l as [|y l IH]; simpl; [reflexivity|].
  destruct (priority y <=? priority x)%N; [reflexivity|].
  rewrite IH. apply perm_swap.
Qed.

Lemma sortSlice_perm l : sortSlice l ≡ₚ l.
Proof.
  induction l as [|x l IH]; simpl; [reflexivity|].
  rewrite insertByPriority_perm, IH. reflexivity.
Qed.



(** *** Groups *)

Lemma groupByPriority_cons x l :
  ∃ g gs, groupByPriority (x :: l) = (x :: g) :: gs.
Proof.
  simpl. destruct (groupByPriority l) as [|[|y g] gs]; [eauto..|].
  case_bool_decide; eauto.
Qed.

Lemma groupByPriority_concat l : concat (groupByPriority l) = l.
Proof.
  induction l as [|x l IH]; [reflexivity|]. simpl.
  destruct (groupByPriority l) as [|[|y g] gs] eqn:Hg.
  - simpl in *. subst. reflexivity.
  - destruct l as [|z l]; [reflexivity|].
    destruct (groupByPriority_cons z l) as (g' & gs' & Hz). congruence.
  - case_bool_decide; simpl in *; rewrite <- IH; reflexivity.
Qed.



(** *** The loop of the code and the groups of the specification *)

Lemma priorityLoop_barrier (stop : bool) x l prio groupErr err s :
  priority x ≠ prio →
  priorityLoop stop (x :: l) prio groupErr err s =
  match groupErr with
  | Some _ =>
      if stop then Done (s, groupErr)
      else priorityLoop stop (x :: l) (priority x) None (firstError err groupErr) s
  | None => priorityLoop stop (x :: l) (priority x) None err s
  end.
Proof.
  intros Hne. simpl.
  rewrite (bool_decide_eq_true_2 _ Hne).
  rewrite (bool_decide_eq_false_2 (priority x ≠ priority x)) by (intros H; apply H; reflexivity).
  destruct groupErr; [destruct stop|]; reflexivity.
Qed.

Lemma settleGroup_nil (stop : bool) groupErr err s :
  (stop = true → err = None) →
  settleGroup stop [] groupErr err s = Done (s, firstError err groupErr).
Proof.
  intros Hinv. unfold settleGroup.
  destruct groupErr as [msg|]; simpl.
  - destruct stop; [rewrite Hinv by reflexivity|]; reflexivity.
  - rewrite firstError_None_r. reflexivity.
Qed.

Lemma priorityLoop_group (stop : bool) x l :
  ∀ groupErr err s,
    (stop = true → err = None) →
    priorityLoop stop (x :: l) (priority x) groupErr err s =
    match groupByPriority (x :: l) with
    | g :: gs =>
        '(s1, ge) ← runGroup g s;
        settleGroup stop gs (firstError groupErr ge) err s1
    | [] => Done (s, None)
    end.
Proof.
  revert x. induction l as [|y l IH]; intros x groupErr err s Hinv.
  - simpl. rewrite (bool_decide_eq_false_2 (priority x ≠ priority x))
      by (intros H; apply H; reflexivity).
    destruct (operation x s) as [[s1 e]| |]; cbn [mbind Outcome_bind outcome_bind]; [|reflexivity..].
    rewrite settleGroup_nil by exact Hinv. rewrite firstError_None_r. reflexivity.
  - destruct (groupByPriority_cons y l) as (g & gs & Hg).
    change (groupByPriority (x :: y :: l)) with
      (match groupByPriority (y :: l) with
       | (y' :: g') :: gs' =>
           if bool_decide (priority x = priority y') then (x :: y' :: g') :: gs'
           else [x] :: (y' :: g') :: gs'
       | _ => [[x]]
       end).
    rewrite Hg.
    change (priorityLoop stop (x :: y :: l) (priority x) groupErr err s) with
      (if bool_decide (priority x ≠ priority x) then
         match groupErr with
         | Some _ =>
             if stop then Done (s, groupErr)
             else
               '(s', e) ← operation x s;
               priorityLoop stop (y :: l) (priority x)
                 (firstError None e) (firstError err groupErr) s'
         | None =>
             '(s', e) ← operation x s;
             priorityLoop stop (y :: l) (priority x) (firstError groupErr e) err s'
         end
       else
         '(s', e) ← operation x s;
         priorityLoop stop (y :: l) (priority x) (firstError groupErr e) err s').
    rewrite (bool_decide_eq_false_2 (priority x ≠ priority x))
      by (intros H; apply H; reflexivity).
    case_bool_decide as Hp.
    + (* y continues the group of x *)
      change (runGroup (x :: y :: g) s) with
        ('(s1, e) ← operation x s; '(s2, e') ← runGroup (y :: g) s1;
         Done (s2, firstError e e')).
      destruct (operation x s) as [[s1 e]| |]; cbn [mbind Outcome_bind outcome_bind]; [|reflexivity..].
      rewrite Hp, (IH y _ _ _ Hinv), Hg.
      destruct (runGroup (y :: g) s1) as [[s2 e']| |]; cbn [mbind Outcome_bind outcome_bind]; [|reflexivity..].
      rewrite firstError_assoc. reflexivity.
    + (* y opens the next group *)
      change (runGroup [x] s) with
        ('(s1, e) ← operation x s; '(s2, e') ← Done (s1, None);
         Done (s2, firstError e e')).
      destruct (operation x s) as [[s1 e]| |]; cbn [mbind Outcome_bind outcome_bind]; [|reflexivity..].
      rewrite firstError_None_r.
      rewrite priorityLoop_barrier by (intros H; apply Hp; symmetry; exact H).
      unfold settleGroup.
      destruct (firstError groupErr e) as [msg|] eqn:Hfe.
      * destruct stop; [reflexivity|].
        rewrite (IH y) by discriminate. rewrite Hg.
        change (runGroups false ((y :: g) :: gs) (firstError err (Some msg)) s1) with
          ('(s2, ge) ← runGroup (y :: g) s1;
           match ge with
           | Some _ =>
               if false then Done (s2, ge)
               else runGroups false gs (firstError (firstError err (Some msg)) ge) s2
           | None => runGroups false gs (firstError err (Some msg)) s2
           end).
        destruct (runGroup (y :: g) s1) as [[s2 ge]| |]; cbn [mbind Outcome_bind outcome_bind]; [|reflexivity..].
        destruct ge; reflexivity.
      * rewrite (IH y) by exact Hinv. rewrite Hg.
        change (runGroups stop ((y :: g) :: gs) err s1) with
          ('(s2, ge) ← runGroup (y :: g) s1;
           match ge with
           | Some _ =>
               if stop then Done (s2, ge)
               else runGroups stop gs (firstError err ge) s2
           | None => runGroups stop gs err s2
           end).
        destruct (runGroup (y :: g) s1) as [[s2 ge]| |]; cbn [mbind Outcome_bind outcome_bind]; [|reflexivity..].
        destruct ge; reflexivity.
Qed.

Lemma doPriorityOperations_spec l (stop : bool) s :
  doPriorityOperations l stop s = schedulerSpec l stop s.
Proof.
  unfold doPriorityOperations, schedulerSpec.
  destruct l as [|o l]; [reflexivity|].
  destruct (sortSlice (o :: l)) as [|x l'] eqn:Hs.
  - reflexivity.
  - rewrite priorityLoop_group by reflexivity.
    destruct (groupByPriority_cons x l') as (g & gs & Hg). rewrite Hg.
    change (runGroups stop ((x :: g) :: gs) None s) with
      ('(s1, ge) ← runGroup (x :: g) s;
       match ge with
       | Some _ =>
           if stop then Done (s1, ge)
           else runGroups stop gs (firstError None ge) s1
       | None => runGroups stop gs None s1
       end).
    destruct (runGroup (x :: g) s) as [[s1 ge]| |]; cbn [mbind Outcome_bind outcome_bind]; [|reflexivity..].
    destruct ge; reflexivity.
Qed.

Lemma runGroup_app g1 g2 s :
  runGroup (g1 ++ g2) s =
  '(s1, e1) ← runGroup g1 s; '(s2, e2) ← runGroup g2 s1; Done (s2, firstError e1 e2).
Proof.
  revert s. induction g1 as [|o g1 IH]; intros s.
  - cbn [app runGroup mbind Outcome_bind outcome_bind].
    destruct (runGroup g2 s) as [[s2 e2]| |]; reflexivity.
  - cbn [app runGroup].
    destruct (operation o s) as [[s1 e]| |]; cbn [mbind Outcome_bind outcome_bind];
      [|reflexivity..].
    rewrite IH.
    destruct (runGroup g1 s1) as [[s2 e1]| |]; cbn [mbind Outcome_bind outcome_bind];
      [|reflexivity..].
    destruct (runGroup g2 s2) as [[s3 e2]| |]; cbn [mbind Outcome_bind outcome_bind];
      [|reflexivity..].
    rewrite firstError_assoc. reflexivity.
Qed.



(** With stop on error and no error returned, every operation ran and none
    failed. *)
Lemma runGroups_true_None gs s s' :
  runGroups true gs None s = Done (s', None) →
  runGroup (concat gs) s = Done (s', None).
Proof.
  revert s. induction gs as [|g gs IH]; intros s H.
  - exact H.
  - cbn [runGroups] in H. cbn [concat]. rewrite runGroup_app.
    destruct (runGroup g s) as [[s1 ge]| |]; cbn [mbind Outcome_bind outcome_bind] in *;
      [|discriminate..].
    destruct ge; [discriminate|].
    rewrite (IH _ H). reflexivity.
Qed.


(** *** Consequences used for the handler *)


Lemma doPriorityOperations_true_None l s s' :
  doPriorityOperations l true s = Done (s', None) →
  runGroup (sortSlice l) s = Done (s', None).
Proof.
  rewrite doPriorityOperations_spec. unfold schedulerSpec. intros H.
  apply runGroups_true_None in H. rewrite groupByPriority_concat in H. exact H.
Qed.

(** A property that every operation keeps is kept by the scheduler. *)
Lemma priorityLoop_invariant (I : St → Prop) (stop : bool) l :
  (∀ o s s' e, o ∈ l → I s → operation o s = Done (s', e) → I s') →
  ∀ prio groupErr err s s' e,
    I s → priorityLoop stop l prio groupErr err s = Done (s', e) → I s'.
Proof.
  induction l as [|x l IH]; intros Hop prio groupErr err s s' e Hs Hrun.
  - simpl in Hrun. injection Hrun as <- _. exact Hs.
  - assert (∀ o s s' e, o ∈ l → I s → operation o s = Done (s', e) → I s') as Hop'.
    { intros o t t' e' Ho. apply Hop. right. exact Ho. }
    assert (∀ p ge er, ('(s1, e1) ← operation x s; priorityLoop stop l p (ge e1) er s1)
                       = Done (s', e) → I s') as Hstep.
    { intros p ge er Hb. apply bind_Done in Hb as ([s1 e1] & Hx & Hl).
      eapply IH; [exact Hop'| |exact Hl].
      eapply Hop; [left|exact Hs|exact Hx]. }
    cbn [priorityLoop] in Hrun.
    case_bool_decide.
    + destruct groupErr as [msg|].
      * destruct stop.
        -- injection Hrun as <- _. exact Hs.
        -- eapply (Hstep _ (λ e1, firstError None e1)). exact Hrun.
      * eapply (Hstep _ (λ e1, firstError None e1)). exact Hrun.
    + eapply (Hstep _ (λ e1, firstError groupErr e1)). exact Hrun.
Qed.

Lemma doPriorityOperations_invariant (I : St → Prop) (stop : bool) l s s' e :
  (∀ o s s' e, o ∈ l → I s → operation o s = Done (s', e) → I s') →
  I s → doPriorityOperations l stop s = Done (s', e) → I s'.
Proof.
  intros Hop Hs. unfold doPriorityOperations.
  destruct l as [|o l]; [intros [= <- _]; exact Hs|].
  destruct (sortSlice (o :: l)) as [|x l'] eqn:Hsort; [intros [= <- _]; exact Hs|].
  apply priorityLoop_invariant; [|exact Hs].
  intros o' t t' e' Ho'. apply Hop.
  rewrite <- (sortSlice_perm (o :: l)), Hsort. exact Ho'.
Qed.

End SchedulerProperties.

(** ** What a transition leaves alone *)

Ltac case_pair :=
  match goal with
  | |- context [match ?x with (_, _) => _ end] => destruct x eqn:?
  | H : context [match ?x with (_, _) => _ end] |- _ => destruct x eqn:?
  end.

Ltac inv_Done :=
  repeat match goal with
         | H : Done _ = Done _ |- _ => injection H as H; subst
         | H : (_, _) = (_, _) |- _ => injection H as H; subst
         | H : Panic = Done _ |- _ => discriminate H
         | H : OutOfFuel = Done _ |- _ => discriminate H
         end.

Section Frame.
Context {W : Type} (platform : Platform W).
Implicit Types (h : Handler W) (m : UpdateModule W).

Lemma sameRequest_refl (a : gmap string ComponentStatusInfo.t) : sameRequest a a.
Proof. intros k. reflexivity. Qed.

Lemma sameRequest_trans (a b c : gmap string ComponentStatusInfo.t) :
  sameRequest a b → sameRequest b c → sameRequest a c.
Proof. intros H1 H2 k. rewrite H2, H1. reflexivity. Qed.

Lemma sameRequest_alter (a : gmap string ComponentStatusInfo.t) k msg :
  sameRequest a (alter (markError msg) k a).
Proof.
  intros k'. rewrite lookup_alter. case_decide as Hk; [|reflexivity].
  subst k'. destruct (a !! k); reflexivity.
Qed.

Lemma frame_refl h : frame h h.
Proof. constructor; try reflexivity. apply sameRequest_refl. Qed.

Lemma frame_trans h1 h2 h3 : frame h1 h2 → frame h2 h3 → frame h1 h3.
Proof.
  intros [] []. constructor; try congruence.
  all: first [ eapply sameRequest_trans; eassumption | etransitivity; eassumption ].
Qed.

Lemma frame_setWorld w h : frame h (setWorld w h).
Proof. constructor; try reflexivity. apply sameRequest_refl. Qed.

Lemma frame_logCall c h : frame h (logCall c h).
Proof.
  constructor; try reflexivity; [apply sameRequest_refl|].
  simpl. apply prefix_app_r. reflexivity.
Qed.

Lemma frame_componentError k msg h : frame h (componentError k msg h).
Proof. constructor; try reflexivity. simpl. apply sameRequest_alter. Qed.

Lemma frame_callGetVendorVersion m h h' r :
  callGetVendorVersion m h = (h', r) → frame h h'.
Proof.
  unfold callGetVendorVersion. destruct (GetVendorVersion m (world h)) as [w [v e]].
  intros [= <- _]. eapply frame_trans; [apply frame_setWorld | apply frame_logCall].
Qed.

Lemma frame_callPrepare m p v a h h' r :
  callPrepare m p v a h = (h', r) → frame h h'.
Proof.
  unfold callPrepare. destruct (Prepare m p v a (world h)) as [w e].
  intros [= <- _]. eapply frame_trans; [apply frame_setWorld | apply frame_logCall].
Qed.

Lemma frame_callUpdate m h h' r : callUpdate m h = (h', r) → frame h h'.
Proof.
  unfold callUpdate. destruct (Update m (world h)) as [w [b e]].
  intros [= <- _]. eapply frame_trans; [apply frame_setWorld | apply frame_logCall].
Qed.


Lemma frame_callRevert m h h' r : callRevert m h = (h', r) → frame h h'.
Proof.
  unfold callRevert. destruct (Revert m (world h)) as [w [b e]].
  intros [= <- _]. eapply frame_trans; [apply frame_setWorld | apply frame_logCall].
Qed.

Lemma frame_callReboot m h h' r : callReboot m h = (h', r) → frame h h'.
Proof.
  unfold callReboot. destruct (Reboot m (world h)) as [w e].
  intros [= <- _]. eapply frame_trans; [apply frame_setWorld | apply frame_logCall].
Qed.

Lemma frame_callDownloadImage url h h' r :
  callDownloadImage platform url h = (h', r) → frame h h'.
Proof.
  unfold callDownloadImage.
  destruct (downloadImage platform (downloadDir h) url (world h)) as [w r'].
  intros [= <- _]. eapply frame_trans; [apply frame_setWorld | apply frame_logCall].
Qed.

Lemma frame_storageSetVendorVersion id v h h' e :
  storageSetVendorVersion id v h = (h', e) → frame h h'.
Proof.
  unfold storageSetVendorVersion, StateStorage.SetVendorVersion.
  destruct (StateStorage.versionsWritable (storage h)) eqn:Hw; intros [= <- _];
    constructor; try reflexivity; simpl;
    first [ apply sameRequest_refl | symmetry; exact Hw
          | apply prefix_app_r; reflexivity ].
Qed.


Lemma frame_prepareComponent m info h h' e :
  prepareComponent platform m info h = Done (h', e) → frame h h'.
Proof.
  unfold prepareComponent.
  destruct (componentStatuses h !! ComponentUpdateInfo.ID info) as [cur|]; [|discriminate].
  destruct (storageSetVendorVersion _ _ h) as [h1 e1] eqn:H1.
  apply frame_storageSetVendorVersion in H1.
  destruct e1; [intros [= <- _]; exact H1|].
  destruct (callGetVendorVersion m h1) as [h2 [v e2]] eqn:H2.
  apply frame_callGetVendorVersion in H2.
  pose proof (frame_trans _ _ _ H1 H2) as H12.
  destruct (_ && _); [intros [= <- _]; exact H12|].
  destruct (checkAosVersion info (storage h2)); [intros [= <- _]; exact H12|].
  destruct (callDownloadImage platform _ h2) as [h3 [fp e3]] eqn:H3.
  apply frame_callDownloadImage in H3.
  pose proof (frame_trans _ _ _ H12 H3) as H13.
  destruct e3; [intros [= <- _]; exact H13|].
  destruct (image_CheckFileInfo platform fp _ _ _ (world h3)) as [w e4].
  pose proof (frame_trans _ _ _ H13 (frame_setWorld w h3)) as H14.
  destruct e4; [intros [= <- _]; exact H14|].
  destruct (callPrepare m fp _ _ (setWorld w h3)) as [h5 e5] eqn:H5.
  apply frame_callPrepare in H5.
  pose proof (frame_trans _ _ _ H14 H5) as H15.
  destruct e5; intros [= <- _]; exact H15.
Qed.

Lemma opFrame_prepareOperation cinfo : opFrame (prepareOperation platform cinfo).
Proof.
  intros m h h' r. unfold prepareOperation.
  destruct (cinfo !! GetID m) as [info|]; [|intros [= <- _]; apply frame_refl].
  intros H. apply bind_Done in H as ([h1 e] & Hp & [= <- _]).
  eapply frame_prepareComponent, Hp.
Qed.

Lemma opFrame_updateOperation : opFrame (@updateOperation W).
Proof.
  intros m h h' r. unfold updateOperation.
  destruct (callUpdate m h) as [h1 [b e]] eqn:H1. apply frame_callUpdate in H1.
  destruct e; [intros [= <- _]; exact H1|].
  destruct b; simpl; [intros [= <- _]; exact H1|].
  destruct (callGetVendorVersion m h1) as [h2 [v e2]] eqn:H2.
  apply frame_callGetVendorVersion in H2.
  pose proof (frame_trans _ _ _ H1 H2) as H12.
  destruct e2; [intros [= <- _]; exact H12|].
  destruct (handlerState.ComponentStatuses (state h2) !! GetID m); [|discriminate].
  case_bool_decide; intros [= <- _]; exact H12.
Qed.


Lemma opFrame_revertOperation : opFrame (@revertOperation W).
Proof.
  intros m h h' r. unfold revertOperation.
  destruct (callRevert m h) as [h1 r1] eqn:H1. apply frame_callRevert in H1.
  intros [= <- _]. exact H1.
Qed.

(** The closures of [doOperation] and [doReboot]. *)
Lemma frame_operationClosure op m k h rs h' rs' e :
  opFrame op →
  operationClosure op m k (h, rs) = Done ((h', rs'), e) → frame h h'.
Proof.
  intros Hop. unfold operationClosure. intros H.
  apply bind_Done in H as ([h1 [b e1]] & H1 & H2). apply Hop in H1.
  destruct e1.
  - injection H2 as <- _ _. eapply frame_trans; [exact H1 | apply frame_componentError].
  - destruct b; injection H2 as <- _ _; exact H1.
Qed.

Lemma frame_rebootClosure m k h h' e :
  rebootClosure m k h = Done (h', e) → frame h h'.
Proof.
  unfold rebootClosure. destruct (callReboot m h) as [h1 e1] eqn:H1.
  apply frame_callReboot in H1.
  destruct e1; intros [= <- _]; [|exact H1].
  eapply frame_trans; [exact H1 | apply frame_componentError].
Qed.

Lemma closureOf_frame op h h' keys keys' o :
  frame h h' → (∀ k, k ∈ keys' → k ∈ keys) →
  closureOf op h' keys' o → closureOf op h keys o.
Proof.
  intros Hf Hsub (k & cd & Hk & (st' & Hst' & Hcd) & ->).
  pose proof (frame_request _ _ Hf k) as Hreq. rewrite Hst' in Hreq.
  destruct (handlerState.ComponentStatuses (state h) !! k) as [st|] eqn:Hst;
    [|discriminate].
  injection Hreq as Hid _ _.
  exists k, cd. split; [apply Hsub, Hk|]. split; [|reflexivity].
  exists st. split; [exact Hst|].
  rewrite <- Hid, <- (frame_components _ _ Hf). exact Hcd.
Qed.

Lemma collectOperations_spec op (stop : bool) keys :
  ∀ acc err h c,
    collectOperations op stop keys acc err h = Done c →
    match c with
    | Collect h' ops err' =>
        frame h h'
        ∧ ∃ ops', ops = acc ++ ops'
            ∧ Forall (closureOf op h keys) ops'
            ∧ (stop = true →
               h' = h ∧ err' = err ∧ Forall2 (λ k o, closureOf op h [k] o) keys ops')
    | Abort h' _ => frame h h' ∧ stop = true
    end.
Proof.
  induction keys as [|k keys IH]; intros acc err h c Hc.
  - injection Hc as <-. split; [apply frame_refl|].
    exists []. rewrite app_nil_r. repeat split; constructor.
  - cbn [collectOperations] in Hc.
    apply bind_Done in Hc as (id & Hid & Hc).
    unfold statusID in Hid.
    destruct (handlerState.ComponentStatuses (state h) !! k) as [st|] eqn:Hst;
      [|discriminate].
    injection Hid as <-.
    destruct (components h !! ComponentStatusInfo.ID st) as [cd|] eqn:Hcd.
    + apply IH in Hc. destruct c as [h' ops err'|h' msg]; [|exact Hc].
      destruct Hc as (Hf & ops' & -> & Hall & Hstop). split; [exact Hf|].
      assert (closureOf op h (k :: keys)
                (PriorityOperation (updatePriority cd)
                   (operationClosure op (module cd) k))) as Hk.
      { exists k, cd. split; [left|]. split; [eauto|reflexivity]. }
      eexists. split; [rewrite <- app_assoc; reflexivity|]. split.
      * constructor; [exact Hk|].
        eapply Forall_impl; [exact Hall|]. intros o.
        apply closureOf_frame; [apply frame_refl|]. intros k' Hk'. right. exact Hk'.
      * intros Hs. destruct (Hstop Hs) as (-> & -> & H2). repeat split.
        constructor; [|exact H2].
        exists k, cd. split; [left|]. split; [eauto|reflexivity].
    + destruct stop.
      * injection Hc as <-. split; [apply frame_componentError | reflexivity].
      * apply IH in Hc. destruct c as [h' ops err'|h' msg].
        -- destruct Hc as (Hf & ops' & -> & Hall & Hstop).
           split; [eapply frame_trans; [apply frame_componentError | exact Hf]|].
           exists ops'. split; [reflexivity|]. split; [|discriminate].
           eapply Forall_impl; [exact Hall|]. intros o.
           apply closureOf_frame; [apply frame_componentError|].
           intros k' Hk'. right. exact Hk'.
        -- destruct Hc as [_ Hc]. discriminate.
Qed.

Lemma doOperation_frame op keys (stop : bool) h h' rs e :
  opFrame op →
  doOperation keys op stop h = Done (h', rs, e) → frame h h'.
Proof.
  intros Hop H. unfold doOperation in H.
  apply bind_Done in H as (c & Hc & H).
  apply collectOperations_spec in Hc.
  destruct c as [h1 ops err'|h1 msg].
  - destruct Hc as (Hf & ops' & -> & Hall & _).
    apply bind_Done in H as ([[h2 rs2] e2] & Hrun & [= <- <- <-]).
    eapply (doPriorityOperations_invariant (λ s, frame h s.1)) in Hrun;
      [exact Hrun| |exact Hf].
    intros o [t trs] [t' trs'] e' Ho Ht Hrun'. simpl in *.
    rewrite Forall_forall in Hall. destruct (Hall o Ho) as (k & cd & _ & _ & ->).
    simpl in Hrun'. eapply frame_trans; [exact Ht|].
    eapply frame_operationClosure; eassumption.
  - destruct Hc as [Hf _]. injection H as <- _ _. exact Hf.
Qed.

Lemma collectReboots_spec (stop : bool) loopVar keys :
  ∀ acc err h c,
    collectReboots stop loopVar keys acc err h = Done c →
    match c with
    | Collect h' ops _ =>
        frame h h'
        ∧ ∃ ops', ops = acc ++ ops'
            ∧ Forall (λ o, ∃ m, operation o = rebootClosure m loopVar) ops'
    | Abort h' _ => frame h h' ∧ stop = true
    end.
Proof.
  induction keys as [|k keys IH]; intros acc err h c Hc.
  - injection Hc as <-. split; [apply frame_refl|].
    exists []. rewrite app_nil_r. split; [reflexivity | constructor].
  - cbn [collectReboots] in Hc.
    apply bind_Done in Hc as (id & Hid & Hc).
    destruct (components h !! id) as [cd|] eqn:Hcd.
    + apply IH in Hc. destruct c as [h' ops err'|h' msg]; [|exact Hc].
      destruct Hc as (Hf & ops' & -> & Hall). split; [exact Hf|].
      eexists. split; [rewrite <- app_assoc; reflexivity|].
      constructor; [|exact Hall]. exists (module cd). reflexivity.
    + destruct stop.
      * injection Hc as <-. split; [apply frame_componentError | reflexivity].
      * apply IH in Hc. destruct c as [h' ops err'|h' msg].
        -- destruct Hc as (Hf & ops' & -> & Hall).
           split; [eapply frame_trans; [apply frame_componentError | exact Hf]|].
           exists ops'. split; [reflexivity | exact Hall].
        -- destruct Hc as [_ Hc]. discriminate.
Qed.

Lemma doReboot_frame keys (stop : bool) h h' e :
  doReboot keys stop h = Done (h', e) → frame h h'.
Proof.
  intros H. unfold doReboot in H.
  apply bind_Done in H as (c & Hc & H).
  apply collectReboots_spec in Hc.
  destruct c as [h1 ops err'|h1 msg].
  - destruct Hc as (Hf & ops' & -> & Hall).
    eapply (doPriorityOperations_invariant (λ s, frame h s)) in H; [exact H| |exact Hf].
    intros o t t' e' Ho Ht Hrun'.
    rewrite Forall_forall in Hall. destruct (Hall o Ho) as (m & Hm).
    rewrite Hm in Hrun'. eapply frame_trans; [exact Ht|].
    eapply frame_rebootClosure; eassumption.
  - destruct Hc as [Hf _]. injection H as <- _. exact Hf.
Qed.

Lemma componentOperationLoop_frame op (stop : bool) fuel :
  opFrame op →
  ∀ keys err h h' e,
    componentOperationLoop fuel op stop keys err h = Done (h', e) → frame h h'.
Proof.
  intros Hop. induction fuel as [|fuel IH]; intros keys err h h' e H.
  - destruct keys; [injection H as <- _; apply frame_refl | discriminate].
  - destruct keys as [|k keys]; [injection H as <- _; apply frame_refl|].
    cbn [componentOperationLoop] in H.
    apply bind_Done in H as ([[h1 rs] opError] & Hdo & H).
    apply doOperation_frame in Hdo; [|exact Hop].
    destruct (bool_decide (is_Some opError) && stop); [injection H as <- _; exact Hdo|].
    destruct rs as [|r rs]; [injection H as <- _; exact Hdo|].
    apply bind_Done in H as ([h2 rebootError] & Hre & H).
    apply doReboot_frame in Hre.
    destruct (bool_decide (is_Some rebootError) && stop).
    + injection H as <- _. eapply frame_trans; eassumption.
    + apply IH in H. eapply frame_trans; [|exact H]. eapply frame_trans; eassumption.
Qed.

Lemma componentOperation_frame op (stop : bool) fuel h h' e :
  opFrame op →
  componentOperation fuel op stop h = Done (h', e) → frame h h'.
Proof. intros Hop. apply componentOperationLoop_frame, Hop. Qed.

End Frame.

(** ** The transitions *)

Section Transitions.
Context {W : Type} (platform : Platform W).
Implicit Types (h : Handler W) (m : UpdateModule W).

Lemma onPrepareState_empty fuel e rest h :
  Event_Args e = [] :: rest →
  onPrepareState platform fuel e h
  = Done (failTransition "Prepare componenet list is empty"
            (setStateComponentStatuses ∅ (setError String.EmptyString h))).
Proof. intros Hargs. unfold onPrepareState. rewrite Hargs. reflexivity. Qed.

(** After a callback has set the machine to failed, [onStateChanged] keeps
    it there, whether or not the state can be saved. *)
Lemma onStateChanged_failed e h :
  current (fsm h) = stateFailed →
  ∃ h', onStateChanged platform e h = Done h'
    ∧ current (fsm h') = stateFailed
    ∧ handlerState.UpdateState (state h') = stateFailed
    ∧ (handlerState.Error (state h) ≠ String.EmptyString →
       handlerState.Error (state h') = handlerState.Error (state h))
    ∧ handlerState.ComponentStatuses (state h') = handlerState.ComponentStatuses (state h)
    ∧ transition (fsm h') = transition (fsm h)
    ∧ calls h' = calls h ∧ world h' = world h.
Proof.
  destruct h as [[us aos vv sw vw] c cs [u er sts] [cur tbl tr] d sc w cl].
  simpl. intros ->.
  unfold onStateChanged, FSM_Current.
  cbn [setUpdateState setState state handlerState.UpdateState fsm current].
  rewrite bool_decide_eq_false_2 by discriminate.
  cbn [mbind Outcome_bind outcome_bind].
  unfold saveState, StateStorage.SetUpdateState.
  cbn [storage setState StateStorage.stateWritable].
  destruct sw.
  - eexists. split; [reflexivity|]. simpl. repeat split; reflexivity.
  - eexists. split; [reflexivity|]. cbn.
    case_bool_decide; cbn; repeat split; try reflexivity; try congruence.
Qed.

Lemma runTransition_prepare_empty fuel h e rest :
  transition (fsm h) = Some e →
  Event_Event e = eventPrepare →
  Event_Args e = [] :: rest →
  ∃ h', runTransition platform fuel h = Done h'
    ∧ current (fsm h') = stateFailed
    ∧ handlerState.UpdateState (state h') = stateFailed
    ∧ handlerState.Error (state h') = "Prepare componenet list is empty"
    ∧ transition (fsm h') = None
    ∧ calls h' = calls h ∧ world h' = world h.
Proof.
  intros Htr Hev Hargs.
  unfold runTransition, FSM_Transition. rewrite Htr.
  unfold afterEventCallbacks. rewrite Hev.
  rewrite bool_decide_eq_true_2 by reflexivity.
  rewrite (onPrepareState_empty _ _ rest) by exact Hargs.
  cbn [mbind Outcome_bind outcome_bind].
  match goal with
  | |- context [onStateChanged platform e ?x] =>
      destruct (onStateChanged_failed e x) as (h' & -> & Hc & Hu & He & _ & _ & Hcalls & Hw);
        [reflexivity|]
  end.
  cbn [mbind Outcome_bind outcome_bind].
  eexists. split; [reflexivity|].
  cbn [fsm setFsm current transition state calls world].
  repeat split; try assumption.
  apply He. discriminate.
Qed.

(** C10: a prepare event with an empty component list that the machine
    accepts sets the machine to failed with the global error "Prepare
    componenet list is empty"; nothing is called on a module and no image is
    fetched: the log of calls and the world stay as they were. *)
Theorem prepare_empty_list fuel h :
  transitions (fsm h) = handlerTransitions →
  FSM_Can (fsm h) eventPrepare = true →
  ∃ h1 h2,
    PrepareUpdate platform fuel [] h = Done h1
    ∧ runTransition platform fuel h1 = Done h2
    ∧ current (fsm h2) = stateFailed
    ∧ handlerState.UpdateState (state h2) = stateFailed
    ∧ handlerState.Error (state h2) = "Prepare componenet list is empty"
    ∧ calls h2 = calls h ∧ world h2 = world h.
Proof.
  intros Htbl Hcan.
  destruct (sendEvent_accepted platform fuel eventPrepare [[]] h Htbl Hcan)
    as (dst & Hdst & Hsend).
  unfold PrepareUpdate. rewrite Hsend. cbn [mbind Outcome_bind outcome_bind].
  eexists. 
  match goal with
  | |- ∃ h2, Done ?x = _ ∧ _ =>
      destruct (runTransition_prepare_empty fuel x
                  (mkFsmEvent eventPrepare (current (fsm h)) dst [[]]) [])
        as (h2 & Hrun & Hc & Hu & He & _ & Hcalls & Hw); [reflexivity..|]
  end.
  exists h2. split; [reflexivity|]. split; [exact Hrun|].
  repeat split; assumption.
Qed.

End Transitions.

Lemma prepare_empty_list_witness :
  ∃ h1 h2,
    PrepareUpdate Bench.platform 1 [] Bench.idle = Done h1
    ∧ runTransition Bench.platform 1 h1 = Done h2
    ∧ current (fsm h2) = stateFailed
    ∧ handlerState.UpdateState (state h2) = stateFailed
    ∧ handlerState.Error (state h2) = "Prepare componenet list is empty"
    ∧ calls h2 = calls Bench.idle ∧ world h2 = world Bench.idle.
Proof.
  apply (prepare_empty_list Bench.platform 1 Bench.idle).
  - by_conv.
  - by_conv.
Defined.

(** ** Prepare *)

Section Prepare.
Context {W : Type} (platform : Platform W).
Implicit Types (h : Handler W) (m : UpdateModule W).

(** C5 (as amended): the first step of [prepareComponent] writes to the
    vendor-version storage, under the id of the request item, the vendor
    version that the handler holds for the component in its run-time status
    (the version installed before the update), not the version the item
    declares; the write comes before every check, the fetch and the call of
    Prepare, and when it fails nothing else is done. *)
Theorem prepareComponent_first_step m info h cur :
  componentStatuses h !! ComponentUpdateInfo.ID info = Some cur →
  ∃ h' err e rest,
    prepareComponent platform m info h = Done (h', err)
    ∧ calls h' = calls h ++
        CallSetVendorVersion (ComponentUpdateInfo.ID info)
          (ComponentStatusInfo.VendorVersion cur) e :: rest
    ∧ (is_Some e → rest = [] ∧ err = e)
    ∧ (StateStorage.versionsWritable (storage h) = true →
       e = None
       ∧ StateStorage.vendorVersions (storage h') !! ComponentUpdateInfo.ID info
         = Some (ComponentStatusInfo.VendorVersion cur)).
Proof.
  intros Hcur. unfold prepareComponent. rewrite Hcur.
  unfold storageSetVendorVersion, StateStorage.SetVendorVersion.
  destruct (StateStorage.versionsWritable (storage h)) eqn:Hw.
  2:{ do 4 eexists. split; [reflexivity|]. simpl.
      split; [reflexivity|]. split; [intros _; split; reflexivity | discriminate]. }
  unfold callGetVendorVersion at 1.
  cbn [world logCall setStorage].
  destruct (GetVendorVersion m (world h)) as [w1 [v e1]].
  match goal with |- context [if ?b then _ else _] => destruct b end.
  { do 4 eexists. split; [reflexivity|]. cbn.
    rewrite <- app_assoc. split; [reflexivity|].
    split; [intros [? [=]]|]. intros _. split; [reflexivity|]. apply lookup_insert_eq. }
  cbn [storage logCall setWorld].
  destruct (checkAosVersion _ _).
  { do 4 eexists. split; [reflexivity|]. cbn.
    rewrite <- app_assoc. split; [reflexivity|].
    split; [intros [? [=]]|]. intros _. split; [reflexivity|]. apply lookup_insert_eq. }
  unfold callDownloadImage. cbn [world downloadDir logCall setWorld].
  destruct (downloadImage _ _ _ _) as [w2 [fp e2]].
  destruct e2.
  { do 4 eexists. split; [reflexivity|]. cbn.
    rewrite <- !app_assoc. split; [reflexivity|].
    split; [intros [? [=]]|]. intros _. split; [reflexivity|]. apply lookup_insert_eq. }
  cbn [world logCall setWorld].
  destruct (image_CheckFileInfo _ _ _ _ _ _) as [w3 e3].
  destruct e3.
  { do 4 eexists. split; [reflexivity|]. cbn.
    rewrite <- !app_assoc. split; [reflexivity|].
    split; [intros [? [=]]|]. intros _. split; [reflexivity|]. apply lookup_insert_eq. }
  unfold callPrepare. cbn [world logCall setWorld].
  destruct (Prepare _ _ _ _ _) as [w4 e4].
  destruct e4.
  all: do 4 eexists; (split; [reflexivity|]); cbn;
    rewrite <- !app_assoc; (split; [reflexivity|]);
    (split; [intros [? [=]]|]); intros _; (split; [reflexivity|]); apply lookup_insert_eq.
Qed.
End Prepare.

Lemma prepareComponent_first_step_witness :
  ∃ h' err e rest,
    prepareComponent Bench.platform (Bench.scripted "m1" "2.0")
      (Bench.item "m1" "2.0" 5) Bench.idle = Done (h', err)
    ∧ calls h' = calls Bench.idle ++ CallSetVendorVersion "m1" "1.0" e :: rest
    ∧ (is_Some e → rest = [] ∧ err = e)
    ∧ (StateStorage.versionsWritable (storage Bench.idle) = true →
       e = None ∧ StateStorage.vendorVersions (storage h') !! "m1" = Some "1.0").
Proof.
  apply (prepareComponent_first_step Bench.platform (Bench.scripted "m1" "2.0")
           (Bench.item "m1" "2.0" 5) Bench.idle
           (ComponentStatusInfo.mk "m1" "1.0" 0 StatusInstalled "")).
  by_conv.
Defined.

(** C5 as stated fails: the item declares vendor version 2.0, the first call
    of the prepare writes 1.0, the version installed, and that is what the
    storage holds when the transition has settled in prepared. *)
Lemma prepare_persists_installed_version :
  ComponentUpdateInfo.VendorVersion (Bench.item "m1" "2.0" 5) = "2.0"
  ∧ current (fsm Bench.prepared) = statePrepared
  ∧ (∃ rest, calls Bench.prepared
             = calls Bench.idle ++ CallSetVendorVersion "m1" "1.0" None :: rest)
  ∧ StateStorage.vendorVersions (storage Bench.prepared) !! "m1" = Some "1.0".
Proof.
  split; [reflexivity|]. split; [by_conv|].
  split; [eexists; vm_compute; reflexivity|]. by_conv.
Qed.

(** ** Entering idle *)

Lemma forEach_invariant {A S : Type} (I : S → Prop) (f : S → A → Outcome S) l :
  (∀ s x s', I s → f s x = Done s' → I s') →
  ∀ s s', I s → forEach f l s = Done s' → I s'.
Proof.
  intros Hf. induction l as [|x l IH]; intros s s' Hs H.
  - injection H as <-. exact Hs.
  - cbn [forEach] in H. apply bind_Done in H as (s1 & H1 & H2).
    eapply IH; [|exact H2]. eapply Hf; eassumption.
Qed.

Section Purge.
Implicit Types (m acc : gmap string ComponentStatusInfo.t).

Lemma purge_deleted l : ∀ acc k,
  (∃ st, (k, st) ∈ l ∧ ComponentStatusInfo.Status st ≠ StatusError) →
  foldl purgeStep acc l !! k = None.
Proof.
  induction l as [|[id st0] l IH]; intros acc k (st & Hin & Hst).
  - inversion Hin.
  - cbn [foldl]. apply elem_of_cons in Hin as [[= <- <-]|Hin].
    + unfold purgeStep at 2. rewrite bool_decide_eq_true_2 by exact Hst.
      clear IH. revert acc. induction l as [|[id' st'] l IH]; intros acc.
      * apply lookup_delete_eq.
      * cbn [foldl]. unfold purgeStep at 2. case_bool_decide.
        -- destruct (decide (id' = k)) as [->|Hne].
           ++ rewrite delete_delete_eq. apply IH.
           ++ rewrite delete_delete. apply IH.
        -- apply IH.
    + apply IH. eauto.
Qed.

Lemma purge_kept l : ∀ acc k,
  (∀ st, (k, st) ∈ l → ComponentStatusInfo.Status st = StatusError) →
  foldl purgeStep acc l !! k = acc !! k.
Proof.
  induction l as [|[id st0] l IH]; intros acc k Hall; [reflexivity|].
  cbn [foldl]. rewrite IH by (intros st Hin; apply Hall; right; exact Hin).
  unfold purgeStep. case_bool_decide as Hst; [|reflexivity].
  apply lookup_delete_ne. intros ->. apply Hst, Hall. left.
Qed.

Lemma purgeStatuses_lookup m k st :
  purgeStatuses m !! k = Some st ↔
  m !! k = Some st ∧ ComponentStatusInfo.Status st = StatusError.
Proof.
  unfold purgeStatuses.
  destruct (m !! k) as [st0|] eqn:Hk.
  - destruct (decide (ComponentStatusInfo.Status st0 = StatusError)) as [He|Hne].
    + rewrite purge_kept, Hk.
      * split; [intros [= <-]; auto | intros [H _]; exact H].
      * intros st' Hin. apply elem_of_map_to_list in Hin. congruence.
    + rewrite purge_deleted.
      * split; [discriminate | intros [[= <-] He]; contradiction].
      * exists st0. split; [apply elem_of_map_to_list; exact Hk | exact Hne].
  - rewrite purge_kept, Hk.
    + split; [discriminate | intros [H _]; discriminate].
    + intros st' Hin. apply elem_of_map_to_list in Hin. congruence.
Qed.
End Purge.

Section EnteringIdle.
Context {W : Type} (platform : Platform W).
Implicit Types (h : Handler W).

Lemma getVersions_keeps h h' :
  getVersions h = Done h' →
  state h' = state h ∧ storage h' = storage h ∧ fsm h' = fsm h
  ∧ downloadDir h' = downloadDir h ∧ statusChannel h' = statusChannel h
  ∧ components h' = components h.
Proof.
  unfold getVersions.
  apply (forEach_invariant
           (λ t, state t = state h ∧ storage t = storage h ∧ fsm t = fsm h
                 ∧ downloadDir t = downloadDir h ∧ statusChannel t = statusChannel h
                 ∧ components t = components h));
    [|repeat split; reflexivity].
  intros t [id cd] t' (H1 & H2 & H3 & H4 & H5 & H6). unfold getVersionsStep.
  assert (∃ t1 v,
            (if bool_decide (handlerState.UpdateState (state t) = stateIdle)
             then callGetVendorVersion (module cd) t
             else (t, StateStorage.GetVendorVersion id (storage t))) = (t1, v)
            ∧ state t1 = state t ∧ storage t1 = storage t ∧ fsm t1 = fsm t
            ∧ downloadDir t1 = downloadDir t ∧ statusChannel t1 = statusChannel t
            ∧ components t1 = components t) as (t1 & [v e] & -> & Q1 & Q2 & Q3 & Q4 & Q5 & Q6).
  { case_bool_decide.
    - unfold callGetVendorVersion.
      destruct (GetVendorVersion (module cd) (world t)) as [w [v e]].
      eexists _, _. split; [reflexivity|]. repeat split; reflexivity.
    - eexists _, _. split; [reflexivity|]. repeat split; reflexivity. }
  destruct (componentStatuses t1 !! id); [|discriminate].
  destruct (StateStorage.GetAosVersion id (storage t1)) as [a [e'|]];
    intros [= <-]; cbn; repeat split; congruence.
Qed.

Lemma saveState_None h h' :
  saveState h = (h', None) →
  StateStorage.updateState (storage h') = Some (state h)
  ∧ state h' = state h ∧ fsm h' = fsm h ∧ world h' = world h
  ∧ downloadDir h' = downloadDir h ∧ calls h' = calls h.
Proof.
  unfold saveState, StateStorage.SetUpdateState.
  destruct (StateStorage.stateWritable (storage h)); [|discriminate].
  intros [= <-]. repeat split; reflexivity.
Qed.

Lemma cleanDownloadDir_state h : state (cleanDownloadDir platform h) = state h.
Proof.
  unfold cleanDownloadDir. case_bool_decide; [|reflexivity].
  destruct (os_RemoveAll _ _ _) as [w1 e1]. destruct (os_MkdirAll _ _ _) as [w2 e2].
  reflexivity.
Qed.

(** C9: when [onStateChanged] leaves the machine in idle, the update
    statuses that remain (in the handler and in the blob just saved) are the
    former entries whose status is Error, unchanged, and no other entry; the
    state that was saved is the resulting state; and the download directory,
    when one is configured (the code skips the cleaning for an empty path),
    has been removed with [os.RemoveAll] and created again with
    [os.MkdirAll], so that it has no entries. *)
Theorem onStateChanged_idle e h h' :
  onStateChanged platform e h = Done h' →
  current (fsm h') = stateIdle →
  (∀ k st,
     handlerState.ComponentStatuses (state h') !! k = Some st ↔
     handlerState.ComponentStatuses (state h) !! k = Some st
     ∧ ComponentStatusInfo.Status st = StatusError)
  ∧ handlerState.UpdateState (state h') = stateIdle
  ∧ StateStorage.updateState (storage h') = Some (state h')
  ∧ (∃ h1, getVersions (setUpdateState stateIdle h) = Done h1
       ∧ world h' =
         if bool_decide (downloadDir h ≠ String.EmptyString)
         then (os_MkdirAll platform (downloadDir h)
                 (os_RemoveAll platform (downloadDir h) (world h1)).1).1
         else world h1)
  ∧ (downloadDir h ≠ String.EmptyString →
     ∀ entries : string → W → option (list string),
       (∀ d w, entries d (os_RemoveAll platform d w).1 = None) →
       (∀ d w, entries d w = None → entries d (os_MkdirAll platform d w).1 = Some []) →
       entries (downloadDir h) (world h') = Some []).
Proof.
  intros Hrun Hidle. unfold onStateChanged in Hrun.
  apply bind_Done in Hrun as (h1 & H1 & Hrun).
  destruct (saveState h1) as [h2 err] eqn:Hsave.
  injection Hrun as <-.
  destruct err as [msg|]; [exfalso; cbn in Hidle; discriminate|].
  cbn in Hidle.
  apply saveState_None in Hsave as (S1 & S2 & S3 & S4 & S5 & S6).
  rewrite S3 in Hidle.
  change (sendStatus h2) with (setStatusChannel
    (statusChannel h2 ++ [Status.mk (toUMState (handlerState.UpdateState (state h2)))
       (handlerState.Error (state h2))
       (foldl (λ acc '(id, componentStatus),
                 match handlerState.ComponentStatuses (state h2) !! id with
                 | Some updateStatus => acc ++ [componentStatus; updateStatus]
                 | None => acc ++ [componentStatus]
                 end) [] (map_to_list (componentStatuses h2)))]) h2).
  cbn [setStatusChannel state storage world].
  rewrite S1, S2, S4. clear S1 S2 S3 S4 S5 S6 h2.
  cbn [setUpdateState setState state handlerState.UpdateState] in H1.
  unfold FSM_Current in H1.
  case_bool_decide as Hcur.
  2:{ injection H1 as <-. cbn in Hidle. contradiction. }
  rewrite Hcur in H1.
  apply bind_Done in H1 as (h0 & Hget & [= <-]).
  pose proof (getVersions_keeps _ _ Hget) as (G1 & G2 & G3 & G4 & G5 & G6).
  assert (state (cleanDownloadDir platform
            (setStateComponentStatuses
               (purgeStatuses (handlerState.ComponentStatuses (state h0))) h0))
          = handlerState.mk stateIdle (handlerState.Error (state h))
              (purgeStatuses (handlerState.ComponentStatuses (state h)))) as Hst.
  { rewrite cleanDownloadDir_state.
    cbn [setStateComponentStatuses setState state]. rewrite G1. reflexivity. }
  assert (world (cleanDownloadDir platform
            (setStateComponentStatuses
               (purgeStatuses (handlerState.ComponentStatuses (state h0))) h0))
          = if bool_decide (downloadDir h ≠ String.EmptyString)
            then (os_MkdirAll platform (downloadDir h)
                    (os_RemoveAll platform (downloadDir h) (world h0)).1).1
            else world h0) as Hw.
  { change (downloadDir (setUpdateState stateIdle h)) with (downloadDir h) in G4.
    unfold cleanDownloadDir.
    cbn [downloadDir setStateComponentStatuses setState world]. rewrite G4.
    case_bool_decide; [|reflexivity].
    destruct (os_RemoveAll _ _ _) as [w1 e1]. cbn [fst].
    destruct (os_MkdirAll _ _ _) as [w2 e2]. reflexivity. }
  rewrite Hst, Hw. cbn [handlerState.ComponentStatuses handlerState.UpdateState].
  split; [intros k st; apply purgeStatuses_lookup|].
  split; [reflexivity|]. split; [reflexivity|].
  split; [exists h0; split; [exact Hget | reflexivity]|].
  intros Hdir entries Hrm Hmk.
  rewrite bool_decide_eq_true_2 by exact Hdir.
  apply Hmk, Hrm.
Qed.
End EnteringIdle.

Lemma onStateChanged_idle_witness :
  handlerState.ComponentStatuses (state Bench.reentered) !! "m1"
  = Some (ComponentStatusInfo.mk "m1" "2.0" 5 StatusError "no space left")
  ∧ handlerState.ComponentStatuses (state Bench.reentered) !! "m2" = None
  ∧ StateStorage.updateState (storage Bench.reentered) = Some (state Bench.reentered)
  ∧ Bench.dirs (world Bench.reentered) !! Bench.downloads = Some [].
Proof.
  destruct (onStateChanged_idle Bench.platform Bench.applyEvent Bench.withErrors
              Bench.reentered) as (Hpurge & _ & Hsaved & _ & Hdir).
  - by_Done Bench.blank.
  - by_conv.
  - split; [apply Hpurge; split; by_conv|].
    split.
    + destruct (handlerState.ComponentStatuses (state Bench.reentered) !! "m2")
        as [st|] eqn:H2; [|reflexivity].
      apply Hpurge in H2 as [H2 Hst].
      assert (handlerState.ComponentStatuses (state Bench.withErrors) !! "m2"
              = Some (ComponentStatusInfo.mk "m2" "3.0" 6 StatusInstalling "")) as Hm2
        by by_conv.
      rewrite Hm2 in H2. injection H2 as <-. discriminate Hst.
    + split; [exact Hsaved|].
      assert (downloadDir Bench.withErrors = Bench.downloads) as Hdd by by_conv.
      rewrite <- Hdd.
      apply (Hdir ltac:(rewrite Hdd; discriminate) (λ d w, Bench.dirs w !! d)).
      * intros d w. apply lookup_delete_eq.
      * intros d w Hd. simpl. rewrite Hd. apply lookup_insert_eq.
Defined.

(** ** Invariants of a transition *)

Section SchedulerMore.
Context {St : Type}.
Implicit Types (o : priorityOperation St) (g : list (priorityOperation St)) (s : St).

(** A run without error: every operation returned without error. *)
Lemma runGroup_None_invariant (I : St → Prop) g :
  (∀ o s s', o ∈ g → I s → operation o s = Done (s', None) → I s') →
  ∀ s s', I s → runGroup g s = Done (s', None) → I s'.
Proof.
  induction g as [|o g IH]; intros Hop s s' Hs H.
  - injection H as <-. exact Hs.
  - cbn [runGroup] in H.
    apply bind_Done in H as ([s1 e1] & H1 & H).
    apply bind_Done in H as ([s2 e2] & H2 & [= <- He]).
    destruct e1; [discriminate|]. simpl in He. subst e2.
    eapply IH; [|eapply Hop; [left|exact Hs|exact H1]|exact H2].
    intros o' t t' Ho'. apply Hop. right. exact Ho'.
Qed.

Lemma doPriorityOperations_true_None_invariant (I : St → Prop) l s s' :
  (∀ o s s', o ∈ l → I s → operation o s = Done (s', None) → I s') →
  I s → doPriorityOperations l true s = Done (s', None) → I s'.
Proof.
  intros Hop Hs H. apply doPriorityOperations_true_None in H.
  eapply runGroup_None_invariant; [|exact Hs|exact H].
  intros o t t' Ho. apply Hop. rewrite <- (sortSlice_perm l). exact Ho.
Qed.
End SchedulerMore.

Section Loop.
Context {W : Type} (platform : Platform W).
Implicit Types (h : Handler W) (m : UpdateModule W) (J : Handler W → Prop).

Lemma collectOperations_invariant J op (stop : bool) keys :
  (∀ k msg h, J h → J (componentError k msg h)) →
  ∀ acc err h c,
    J h → collectOperations op stop keys acc err h = Done c →
    match c with Collect h' _ _ => J h' | Abort h' _ => J h' end.
Proof.
  intros Herr. induction keys as [|k keys IH]; intros acc err h c Hh Hc.
  - injection Hc as <-. exact Hh.
  - cbn [collectOperations] in Hc.
    apply bind_Done in Hc as (id & Hid & Hc).
    destruct (components h !! id) as [cd|].
    + eapply IH; eassumption.
    + destruct stop.
      * injection Hc as <-. apply Herr, Hh.
      * eapply IH; [|exact Hc]. apply Herr, Hh.
Qed.

Lemma collectReboots_invariant J (stop : bool) loopVar keys :
  (∀ k msg h, J h → J (componentError k msg h)) →
  ∀ acc err h c,
    J h → collectReboots stop loopVar keys acc err h = Done c →
    match c with Collect h' _ _ => J h' | Abort h' _ => J h' end.
Proof.
  intros Herr. induction keys as [|k keys IH]; intros acc err h c Hh Hc.
  - injection Hc as <-. exact Hh.
  - cbn [collectReboots] in Hc.
    apply bind_Done in Hc as (id & Hid & Hc).
    destruct (components h !! id) as [cd|].
    + eapply IH; eassumption.
    + destruct stop.
      * injection Hc as <-. apply Herr, Hh.
      * eapply IH; [|exact Hc]. apply Herr, Hh.
Qed.

Lemma operationClosure_invariant J op m k h rs h' rs' e :
  (∀ m h h' r, J h → op m h = Done (h', r) → J h') →
  (∀ k msg h, J h → J (componentError k msg h)) →
  J h → operationClosure op m k (h, rs) = Done ((h', rs'), e) → J h'.
Proof.
  intros Hop Herr Hh H. unfold operationClosure in H.
  apply bind_Done in H as ([h1 [b e1]] & H1 & H2). eapply Hop in H1; [|exact Hh].
  destruct e1; [|destruct b]; injection H2 as <- _ _; [apply Herr|..]; exact H1.
Qed.

Lemma rebootClosure_invariant J m k h h' e :
  (∀ k msg h, J h → J (componentError k msg h)) →
  (∀ m h h' e, J h → callReboot m h = (h', e) → J h') →
  J h → rebootClosure m k h = Done (h', e) → J h'.
Proof.
  intros Herr Hre Hh. unfold rebootClosure.
  destruct (callReboot m h) as [h1 e1] eqn:H1. eapply Hre in H1; [|exact Hh].
  destruct e1; intros [= <- _]; [apply Herr|]; exact H1.
Qed.

Lemma doOperation_invariant J op keys (stop : bool) h h' rs e :
  (∀ m h h' r, J h → op m h = Done (h', r) → J h') →
  (∀ k msg h, J h → J (componentError k msg h)) →
  J h → doOperation keys op stop h = Done (h', rs, e) → J h'.
Proof.
  intros Hop Herr Hh H. unfold doOperation in H.
  apply bind_Done in H as (c & Hc & H).
  pose proof (collectOperations_invariant J _ _ _ Herr _ _ _ _ Hh Hc) as HJ.
  apply collectOperations_spec in Hc.
  destruct c as [h1 ops err'|h1 msg].
  - destruct Hc as (_ & ops' & -> & Hall & _).
    apply bind_Done in H as ([[h2 rs2] e2] & Hrun & [= <- <- <-]).
    eapply (doPriorityOperations_invariant (λ s, J s.1)) in Hrun;
      [exact Hrun| |exact HJ].
    intros o [t trs] [t' trs'] e' Ho Ht Hrun'. simpl in *.
    rewrite Forall_forall in Hall. destruct (Hall o Ho) as (k & cd & _ & _ & ->).
    simpl in Hrun'. eapply operationClosure_invariant; eassumption.
  - injection H as <- _ _. exact HJ.
Qed.

Lemma doReboot_invariant J keys (stop : bool) h h' e :
  (∀ k msg h, J h → J (componentError k msg h)) →
  (∀ m h h' e, J h → callReboot m h = (h', e) → J h') →
  J h → doReboot keys stop h = Done (h', e) → J h'.
Proof.
  intros Herr Hre Hh H. unfold doReboot in H.
  apply bind_Done in H as (c & Hc & H).
  pose proof (collectReboots_invariant J _ _ _ Herr _ _ _ _ Hh Hc) as HJ.
  apply collectReboots_spec in Hc.
  destruct c as [h1 ops err'|h1 msg].
  - destruct Hc as (_ & ops' & -> & Hall).
    eapply (doPriorityOperations_invariant J) in H; [exact H| |exact HJ].
    intros o t t' e' Ho Ht Hrun'.
    rewrite Forall_forall in Hall. destruct (Hall o Ho) as (m & Hm).
    rewrite Hm in Hrun'. eapply rebootClosure_invariant; eassumption.
  - injection H as <- _. exact HJ.
Qed.

Lemma componentOperationLoop_invariant J op (stop : bool) fuel :
  (∀ m h h' r, J h → op m h = Done (h', r) → J h') →
  (∀ k msg h, J h → J (componentError k msg h)) →
  (∀ m h h' e, J h → callReboot m h = (h', e) → J h') →
  ∀ keys err h h' e,
    J h → componentOperationLoop fuel op stop keys err h = Done (h', e) → J h'.
Proof.
  intros Hop Herr Hre. induction fuel as [|fuel IH]; intros keys err h h' e Hh H.
  - destruct keys; [injection H as <- _; exact Hh | discriminate].
  - destruct keys as [|k keys]; [injection H as <- _; exact Hh|].
    cbn [componentOperationLoop] in H.
    apply bind_Done in H as ([[h1 rs] opError] & Hdo & H).
    eapply doOperation_invariant in Hdo; [|eassumption..].
    destruct (bool_decide (is_Some opError) && stop); [injection H as <- _; exact Hdo|].
    destruct rs as [|r rs]; [injection H as <- _; exact Hdo|].
    apply bind_Done in H as ([h2 rebootError] & Hre' & H).
    eapply doReboot_invariant in Hre'; [|eassumption..].
    destruct (bool_decide (is_Some rebootError) && stop).
    + injection H as <- _. exact Hre'.
    + eapply IH; eassumption.
Qed.

(** With stop on error, a run that returns no error consists of operations
    and reboots that returned no error. *)
Lemma doOperation_true_None J op keys h h' rs :
  (∀ m h h' r, J h → op m h = Done (h', (r, None)) → J h') →
  J h → doOperation keys op true h = Done (h', rs, None) → J h'.
Proof.
  intros Hop Hh H. unfold doOperation in H.
  apply bind_Done in H as (c & Hc & H).
  apply collectOperations_spec in Hc.
  destruct c as [h1 ops err'|h1 msg]; [|discriminate].
  destruct Hc as (_ & ops' & -> & Hall & Hstop).
  destruct (Hstop eq_refl) as (-> & _ & _).
  apply bind_Done in H as ([[h2 rs2] e2] & Hrun & [= <- <- ->]).
  eapply (doPriorityOperations_true_None_invariant (λ s, J s.1)) in Hrun;
    [exact Hrun| |exact Hh].
  intros o [t trs] [t' trs'] Ho Ht Hrun'. simpl in *.
  rewrite Forall_forall in Hall. destruct (Hall o Ho) as (k & cd & _ & _ & ->).
  simpl in Hrun'. unfold operationClosure in Hrun'.
  apply bind_Done in Hrun' as ([t1 [b e1]] & H1 & H2).
  destruct e1; [discriminate|].
  eapply Hop in H1; [|exact Ht].
  destruct b; injection H2 as <- _; exact H1.
Qed.

Lemma doReboot_true_None J keys h h' :
  (∀ m h h', J h → callReboot m h = (h', None) → J h') →
  J h → doReboot keys true h = Done (h', None) → J h'.
Proof.
  intros Hre Hh H. unfold doReboot in H.
  apply bind_Done in H as (c & Hc & H).
  destruct c as [h1 ops err'|h1 msg]; [|discriminate].
  assert (h1 = h ∧ Forall (λ o, ∃ m k, operation o = rebootClosure m k) ops) as [-> Hall].
  { clear H.
    assert (∀ keys loopVar acc err (h h1 : Handler W) ops err',
              Forall (λ o, ∃ m k, operation o = rebootClosure m k) acc →
              collectReboots true loopVar keys acc err h = Done (Collect h1 ops err') →
              h1 = h ∧ Forall (λ o, ∃ m k, operation o = rebootClosure m k) ops) as Hgen.
    { clear. induction keys as [|k keys IH]; intros loopVar acc err h h1 ops err' Hacc Hc.
      - injection Hc as <- <- _. split; [reflexivity | exact Hacc].
      - cbn [collectReboots] in Hc.
        apply bind_Done in Hc as (id & Hid & Hc).
        destruct (components h !! id) as [cd|]; [|discriminate].
        eapply IH; [|exact Hc]. apply Forall_app. split; [exact Hacc|].
        repeat constructor. eexists _, _. reflexivity. }
    eapply Hgen; [constructor | exact Hc]. }
  eapply (doPriorityOperations_true_None_invariant J) in H; [exact H| |exact Hh].
  intros o t t' Ho Ht Hrun'.
  rewrite Forall_forall in Hall. destruct (Hall o Ho) as (m & k & Hm).
  rewrite Hm in Hrun'. unfold rebootClosure in Hrun'.
  destruct (callReboot m t) as [t1 e1] eqn:H1.
  destruct e1; [discriminate|]. injection Hrun' as <-.
  eapply Hre; eassumption.
Qed.

Lemma componentOperationLoop_true_None J op fuel :
  (∀ m h h' r, J h → op m h = Done (h', (r, None)) → J h') →
  (∀ m h h', J h → callReboot m h = (h', None) → J h') →
  ∀ keys h h',
    J h → componentOperationLoop fuel op true keys None h = Done (h', None) → J h'.
Proof.
  intros Hop Hre. induction fuel as [|fuel IH]; intros keys h h' Hh H.
  - destruct keys; [injection H as <-; exact Hh | discriminate].
  - destruct keys as [|k keys]; [injection H as <-; exact Hh|].
    cbn [componentOperationLoop] in H.
    apply bind_Done in H as ([[h1 rs] opError] & Hdo & H).
    destruct opError as [msg|].
    { rewrite bool_decide_eq_true_2 in H by eauto. discriminate. }
    eapply doOperation_true_None in Hdo; [|eassumption..].
    rewrite bool_decide_eq_false_2 in H by (intros [? [=]]).
    cbn [andb firstError] in H.
    destruct rs as [|r rs]; [injection H as <-; exact Hdo|].
    apply bind_Done in H as ([h2 rebootError] & Hre' & H).
    destruct rebootError as [msg|].
    { rewrite bool_decide_eq_true_2 in H by eauto. discriminate. }
    eapply doReboot_true_None in Hre'; [|eassumption..].
    rewrite bool_decide_eq_false_2 in H by (intros [? [=]]).
    cbn [andb firstError] in H.
    eapply IH; eassumption.
Qed.

End Loop.

(** ** Update *)

Section Update.
Context {W : Type} (platform : Platform W).
Implicit Types (h : Handler W) (m : UpdateModule W).

Lemma extends_refl h (Q : list Call → Prop) : Q [] → extends h h Q.
Proof. intros HQ. exists []. rewrite app_nil_r. split; [reflexivity | exact HQ]. Qed.

Lemma extends_app h0 h h' (Q Q' : list Call → Prop) evs :
  calls h' = calls h ++ evs →
  (∀ new, Q new → Q' (new ++ evs)) →
  extends h0 h Q → extends h0 h' Q'.
Proof.
  intros Hc HQ (new & Hnew & Hq). exists (new ++ evs).
  rewrite Hc, Hnew, app_assoc. split; [reflexivity | apply HQ, Hq].
Qed.

Lemma extends_new h0 h (Q : list Call → Prop) new :
  extends h0 h Q → calls h = calls h0 ++ new → Q new.
Proof.
  intros (new' & Hnew & Hq) Hc. rewrite Hnew in Hc.
  apply app_inv_head in Hc. subst. exact Hq.
Qed.

Lemma calls_componentError k msg h : calls (componentError k msg h) = calls h.
Proof. reflexivity. Qed.

Lemma callReboot_log m h h' e :
  callReboot m h = (h', e) → calls h' = calls h ++ [CallReboot (GetID m) e].
Proof.
  unfold callReboot. destruct (Reboot m (world h)) as [w e']. intros [= <- <-]. reflexivity.
Qed.

(** What one run of the update operation adds to the log. *)
Lemma updateOperation_log m h h' r e :
  updateOperation m h = Done (h', (r, e)) →
  (∃ b ue, calls h' = calls h ++ [CallUpdate (GetID m) b (Some ue)]
           ∧ e = Some ue ∧ r = false)
  ∨ (calls h' = calls h ++ [CallUpdate (GetID m) true None] ∧ e = None ∧ r = true)
  ∨ (∃ v ge,
       calls h' = calls h ++ [CallUpdate (GetID m) false None;
                              CallGetVendorVersion (GetID m) v ge]
       ∧ r = false
       ∧ match ge with
         | Some _ => e = ge
         | None =>
             ∃ st, handlerState.ComponentStatuses (state h) !! GetID m = Some st
               ∧ e = if bool_decide (v ≠ ComponentStatusInfo.VendorVersion st)
                     then Some ("versions mismatch in request "
                                +:+ ComponentStatusInfo.VendorVersion st
                                +:+ " and updated module " +:+ v)
                     else None
         end).
Proof.
  unfold updateOperation, callUpdate.
  destruct (Update m (world h)) as [w1 [b ue]].
  destruct ue as [ue|].
  { intros [= <- <- <-]. left. eauto. }
  destruct b; cbn [negb].
  { intros [= <- <- <-]. right. left. auto. }
  unfold callGetVendorVersion. cbn [world logCall setWorld].
  destruct (GetVendorVersion m w1) as [w2 [v ge]].
  destruct ge as [ge|].
  { intros [= <- <- <-]. right. right. exists v, (Some ge). cbn.
    rewrite <- app_assoc. auto. }
  cbn [state logCall setWorld].
  destruct (handlerState.ComponentStatuses (state h) !! GetID m) as [st|] eqn:Hst;
    [|discriminate].
  intros H. right. right. exists v, None.
  assert (calls h' = calls h ++ [CallUpdate (GetID m) false None;
                                 CallGetVendorVersion (GetID m) v None]
          ∧ r = false
          ∧ e = if bool_decide (v ≠ ComponentStatusInfo.VendorVersion st)
                then Some ("versions mismatch in request "
                           +:+ ComponentStatusInfo.VendorVersion st
                           +:+ " and updated module " +:+ v)
                else None) as (Hc & -> & ->).
  { destruct (bool_decide (v ≠ ComponentStatusInfo.VendorVersion st));
      injection H as <- <- <-; cbn; rewrite <- app_assoc; auto. }
  split; [exact Hc|]. split; [reflexivity|]. exists st. split; reflexivity.
Qed.

Lemma vendorRead_loop fuel (stop : bool) keys err h h' e :
  componentOperationLoop fuel updateOperation stop keys err h = Done (h', e) →
  extends h h' vendorRead.
Proof.
  apply (componentOperationLoop_invariant (λ t, extends h t vendorRead)).
  - intros m t t' [r e'] Ht Hop. apply updateOperation_log in Hop.
    destruct Hop as [(b & ue & Hc & _)|[(Hc & _)|(v & ge & Hc & _)]];
      (eapply extends_app; [exact Hc| |exact Ht]); intros new Hq c Hin;
      apply elem_of_app in Hin as [Hin|Hin].
    + destruct (Hq c Hin) as (v' & err' & H'). exists v', err'.
      apply elem_of_app. left. exact H'.
    + apply list_elem_of_singleton in Hin. discriminate.
    + destruct (Hq c Hin) as (v' & err' & H'). exists v', err'.
      apply elem_of_app. left. exact H'.
    + apply list_elem_of_singleton in Hin. discriminate.
    + destruct (Hq c Hin) as (v' & err' & H'). exists v', err'.
      apply elem_of_app. left. exact H'.
    + apply elem_of_cons in Hin as [[= <-]|Hin].
      * exists v, ge. apply elem_of_app. right. right. left.
      * apply list_elem_of_singleton in Hin. discriminate.
  - intros k msg t Ht. exact Ht.
  - intros m t t' e' Ht Hre. apply callReboot_log in Hre.
    eapply extends_app; [exact Hre| |exact Ht]. intros new Hq c Hin.
    apply elem_of_app in Hin as [Hin|Hin].
    + destruct (Hq c Hin) as (v' & err' & H'). exists v', err'.
      apply elem_of_app. left. exact H'.
    + apply list_elem_of_singleton in Hin. discriminate.
  - apply extends_refl. intros c Hin. inversion Hin.
Qed.

Lemma vendorMatches_loop fuel keys h h' :
  componentOperationLoop fuel updateOperation true keys None h = Done (h', None) →
  extends h h' (vendorMatches h).
Proof.
  intros H.
  apply (componentOperationLoop_true_None
           (λ t, frame h t ∧ extends h t (vendorMatches h))) in H.
  - apply H.
  - intros m t t' r [Hf Ht] Hop.
    split; [eapply frame_trans; [exact Hf|]; eapply opFrame_updateOperation; exact Hop|].
    apply updateOperation_log in Hop.
    destruct Hop as [(b & ue & _ & [=] & _)|[(Hc & _)|(v & ge & Hc & _ & Hge)]];
      (eapply extends_app; [exact Hc| |exact Ht]); intros new Hq c v' err' Hin;
      apply elem_of_app in Hin as [Hin|Hin]; try (apply Hq; exact Hin).
    + apply list_elem_of_singleton in Hin. discriminate.
    + apply elem_of_cons in Hin as [[=]|Hin].
      apply list_elem_of_singleton in Hin. injection Hin as -> -> ->.
      destruct ge as [ge|]; [discriminate|].
      destruct Hge as (st & Hst & He). split; [reflexivity|].
      case_bool_decide as Hv; [discriminate|].
      intros st0 Hst0.
      pose proof (frame_request _ _ Hf (GetID m)) as Hreq.
      rewrite Hst, Hst0 in Hreq. injection Hreq as _ Hvv _.
      congruence.
  - intros m t t' [Hf Ht] Hre.
    split; [eapply frame_trans; [exact Hf|]; eapply frame_callReboot; exact Hre|].
    apply callReboot_log in Hre.
    eapply extends_app; [exact Hre| |exact Ht]. intros new Hq c v' err' Hin.
    apply elem_of_app in Hin as [Hin|Hin]; [apply Hq; exact Hin|].
    apply list_elem_of_singleton in Hin. discriminate.
  - split; [apply frame_refl|]. apply extends_refl. intros c v err Hin. inversion Hin.
Qed.


(** Outside of idle [onStateChanged] saves the state and sends the status:
    it calls nothing, and the machine stays where it is unless the state
    cannot be saved. *)
Lemma onStateChanged_not_idle e h :
  current (fsm h) ≠ stateIdle →
  ∃ h', onStateChanged platform e h = Done h'
    ∧ calls h' = calls h ∧ world h' = world h
    ∧ transition (fsm h') = transition (fsm h)
    ∧ handlerState.ComponentStatuses (state h') = handlerState.ComponentStatuses (state h)
    ∧ handlerState.UpdateState (state h') = current (fsm h')
    ∧ (if StateStorage.stateWritable (storage h)
       then current (fsm h') = current (fsm h)
            ∧ handlerState.Error (state h') = handlerState.Error (state h)
            ∧ StateStorage.updateState (storage h') = Some (state h')
       else current (fsm h') = stateFailed).
Proof.
  destruct h as [[us aos vv sw vw] c cs [u er sts] [cur tbl tr] d sc w cl].
  simpl. intros Hcur.
  unfold onStateChanged, FSM_Current.
  cbn [setUpdateState setState state handlerState.UpdateState fsm current].
  rewrite bool_decide_eq_false_2 by exact Hcur.
  cbn [mbind Outcome_bind outcome_bind].
  unfold saveState, StateStorage.SetUpdateState.
  cbn [storage setState StateStorage.stateWritable].
  destruct sw.
  - eexists. split; [reflexivity|]. simpl. repeat split; reflexivity.
  - eexists. split; [reflexivity|]. cbn.
    case_bool_decide; cbn; repeat split; reflexivity.
Qed.

(** C7: in an update transition every Update that returns without error
    and without a reboot request is followed by a read of the module's
    vendor version; when such a read fails or gives a version other than the
    one requested for the component, the operation had an error, the global
    error is set from it and the machine ends in failed, not in updated. *)
Theorem update_checks_vendor_version fuel h e h' r new :
  transition (fsm h) = Some e →
  Event_Event e = eventUpdate →
  Event_Dst e = stateUpdated →
  FSM_Transition platform fuel h = Done (h', r) →
  calls h' = calls h ++ new →
  vendorRead new
  ∧ ((∃ c v err,
        CallGetVendorVersion c v err ∈ new
        ∧ (is_Some err
           ∨ ∃ st, handlerState.ComponentStatuses (state h) !! c = Some st
                   ∧ v ≠ ComponentStatusInfo.VendorVersion st)) →
     current (fsm h') = stateFailed
     ∧ handlerState.UpdateState (state h') = stateFailed
     ∧ ∃ h1 msg,
         componentOperation fuel updateOperation true
           (setError String.EmptyString
              (setFsm (mkFSM stateUpdated (transitions (fsm h)) (transition (fsm h))) h))
         = Done (h1, Some msg)
         ∧ (msg ≠ String.EmptyString → handlerState.Error (state h') = msg)).
Proof.
  intros Htr Hev Hdst Hrun Hnew.
  unfold FSM_Transition in Hrun. rewrite Htr in Hrun.
  apply bind_Done in Hrun as (h3 & Hafter & [= <- _]).
  unfold afterEventCallbacks in Hafter. rewrite Hev, Hdst in Hafter.
  rewrite (bool_decide_eq_false_2 (eventUpdate = eventPrepare)) in Hafter by discriminate.
  rewrite (bool_decide_eq_true_2 (eventUpdate = eventUpdate)) in Hafter by reflexivity.
  apply bind_Done in Hafter as (h2 & Hon & Hchanged).
  unfold onUpdateState in Hon.
  apply bind_Done in Hon as ([h1 err] & Hop & Hon).
  set (h0 := setError String.EmptyString
               (setFsm (mkFSM stateUpdated (transitions (fsm h)) (Some e)) h)) in *.
  pose proof (componentOperation_frame _ _ _ _ _ _ opFrame_updateOperation Hop) as Hf.
  pose proof (vendorRead_loop _ _ _ _ _ _ _ Hop) as Hread.
  cbn [fsm setFsm current transitions transition calls] in Hnew.
  destruct err as [msg|].
  - injection Hon as <-.
    destruct (onStateChanged_failed platform e (failTransition msg h1))
      as (h3' & Hc' & Hcur & Hus & Herr & _ & _ & Hcalls & _); [reflexivity|].
    rewrite Hc' in Hchanged. injection Hchanged as <-.
    cbn [fsm setFsm current transitions transition calls state] in *.
    split.
    { eapply extends_new; [exact Hread|]. change (calls h0) with (calls h).
      rewrite <- Hnew. symmetry. exact Hcalls. }
    intros _. split; [exact Hcur|]. split; [exact Hus|].
    exists h1, msg. rewrite Htr. split; [exact Hop|]. intros Hmsg. rewrite Herr; [reflexivity|exact Hmsg].
  - injection Hon as <-.
    pose proof (vendorMatches_loop _ _ _ _ Hop) as Hmatch.
    destruct (onStateChanged_not_idle e h1) as (h3' & Hc' & Hcalls & _).
    { rewrite (frame_fsm _ _ Hf). discriminate. }
    rewrite Hc' in Hchanged. injection Hchanged as <-.
    cbn [fsm setFsm current transitions transition calls state] in *.
    assert (calls h1 = calls h0 ++ new) as Hnew1
      by (change (calls h0) with (calls h); rewrite <- Hnew; symmetry; exact Hcalls).
    split; [eapply extends_new; [exact Hread | exact Hnew1]|].
    intros (c & v & err & Hin & Hbad). exfalso.
    pose proof (extends_new _ _ _ _ Hmatch Hnew1 c v err Hin) as [-> Hv].
    destruct Hbad as [[? [=]]|(st & Hst & Hne)].
    apply Hne, Hv. exact Hst.
Qed.

End Update.

Lemma update_checks_vendor_version_witness :
  current (fsm Bench.mismatched) = stateFailed
  ∧ handlerState.Error (state Bench.mismatched)
    = "versions mismatch in request 2.0 and updated module 3.0".
Proof.
  destruct (update_checks_vendor_version Bench.platform 8 Bench.pendingMismatch
              Bench.updateEvent Bench.mismatched None
              [CallUpdate "m1" true None; CallReboot "m1" None;
               CallUpdate "m1" false None; CallGetVendorVersion "m1" "3.0" None])
    as [_ H].
  - by_conv.
  - reflexivity.
  - reflexivity.
  - by_Transition Bench.blank.
  - by_calls [CallInit "m1" None; CallGetVendorVersion "m1" "1.0" None;
               CallSetVendorVersion "m1" "1.0" None; CallGetVendorVersion "m1" "1.0" None;
               CallDownloadImage "/var/aos/downloads" "file:///tmp/img";
               CallPrepare "m1" "file:///tmp/img" "2.0" "{}" None].
  - destruct H as (Hc & _ & h1 & msg & Hop & Hmsg).
    + exists "m1"%string, "3.0"%string, None. split; [do 3 right; left|].
      right. exists (ComponentStatusInfo.mk "m1" "2.0" 5 StatusInstalling "").
      split; [by_conv | discriminate].
    + split; [exact Hc|]. by_conv.
Defined.

(** ** Counting the updates *)

Section Counting.
Context {W : Type} (platform : Platform W).
Implicit Types (h : Handler W) (m : UpdateModule W).




Lemma wfStatuses_frame h0 h : frame h0 h → wfStatuses h0 → wfStatuses h.
Proof.
  intros Hf Hwf k st Hst. pose proof (frame_request _ _ Hf k) as Hreq.
  rewrite Hst in Hreq.
  destruct (handlerState.ComponentStatuses (state h0) !! k) as [st0|] eqn:H0;
    [|discriminate].
  injection Hreq as Hid _ _. rewrite Hid. apply Hwf, H0.
Qed.

Lemma wfComponents_frame h0 h : frame h0 h → wfComponents h0 → wfComponents h.
Proof. intros Hf Hwf k cd. rewrite (frame_components _ _ Hf). apply Hwf. Qed.





End Counting.


(** ** Apply *)

Section Apply.
Context {W : Type} (platform : Platform W).
Implicit Types (h : Handler W) (m : UpdateModule W).









End Apply.

